(** * Unified diff engine of the CodeCommander tool server

    Shallow embedding of [computeLCS] and [computeUnifiedDiff] (the
    LCS-based unified diff used by the [cc_diff_files] tool) and of the
    input schema of that tool. *)

From Stdlib Require Import List String Ascii Arith Lia NArith ZArith QArith.
Import ListNotations.
Open Scope string_scope.
Open Scope nat_scope.
Open Scope list_scope.

(* ------------------------------------------------------------------ *)
(** ** Change records *)

Inductive ctype := CEqual | CDelete | CInsert.

(** [{ type; lineA?; lineB?; text }]: the optional fields are [undefined]
    in JavaScript when absent. *)
Record change := mkChange {
  type : ctype;
  lineA : option nat;
  lineB : option nat;
  text : string
}.

Definition is_equal (c : change) : bool :=
  match type c with CEqual => true | _ => false end.

(* ------------------------------------------------------------------ *)
(** ** [computeLCS] *)

(** One inner loop of [computeLCS]: given the previous row [prev]
    (entries [dp[i-1][j-1]], [dp[i-1][j]], ...) and [left = dp[i][j-1]],
    produce [dp[i][j]], [dp[i][j+1]], ... *)
Fixpoint next_row (a : string) (bs : list string) (prev : list nat) (left : nat)
  : list nat :=
  match bs, prev with
  | b :: bs', p0 :: ((p1 :: _) as prev') =>
      let v := if String.eqb a b then p0 + 1 else Nat.max p1 left in
      v :: next_row a bs' prev' v
  | _, _ => []
  end.

Fixpoint build_rows (as_ bs : list string) (prev : list nat) : list (list nat) :=
  match as_ with
  | [] => []
  | a :: as' =>
      let r := 0 :: next_row a bs prev 0 in
      r :: build_rows as' bs r
  end.

(** [Array.from({length: m+1}, () => new Array(n+1).fill(0))], then the
    rows [1..m] filled in order. *)
Definition computeLCS (a b : list string) : list (list nat) :=
  let r0 := repeat 0 (List.length b + 1) in
  r0 :: build_rows a b r0.

(** [dp[i][j]] *)
Definition get (dp : list (list nat)) (i j : nat) : nat :=
  nth j (nth i dp []) 0.

(* ------------------------------------------------------------------ *)
(** ** Backtracking loop of [computeUnifiedDiff] *)

(** [linesA[i]] *)
Definition at_ (l : list string) (i : nat) : string := nth i l "".

(** One iteration of [while (i > 0 || j > 0) { ... }]; [push] appends. *)
Definition bt_step (linesA linesB : list string) (dp : list (list nat))
    (st : nat * nat * list change) : nat * nat * list change :=
  let '(i, j, backtrack) := st in
  if (0 <? i) && (0 <? j) && String.eqb (at_ linesA (i - 1)) (at_ linesB (j - 1))
  then (i - 1, j - 1,
        backtrack ++ [mkChange CEqual (Some (i - 1)) (Some (j - 1)) (at_ linesA (i - 1))])
  else if (0 <? j) && ((i =? 0) || (get dp (i - 1) j <=? get dp i (j - 1)))
  then (i, j - 1, backtrack ++ [mkChange CInsert None (Some (j - 1)) (at_ linesB (j - 1))])
  else (i - 1, j, backtrack ++ [mkChange CDelete (Some (i - 1)) None (at_ linesA (i - 1))]).

Definition bt_guard (st : nat * nat * list change) : bool :=
  let '(i, j, _) := st in (0 <? i) || (0 <? j).

(** The loop, run for at most [fuel] iterations; [None] when the fuel
    runs out while the guard still holds. *)
Fixpoint bt_loop (linesA linesB : list string) (dp : list (list nat)) (fuel : nat)
    (st : nat * nat * list change) : option (nat * nat * list change) :=
  if bt_guard st then
    match fuel with
    | O => None
    | S f => bt_loop linesA linesB dp f (bt_step linesA linesB dp st)
    end
  else Some st.

(** [changes]: the backtrack list, reversed.  The loop is run with
    [List.length linesA + List.length linesB] iterations available. *)
Definition diff_changes (linesA linesB : list string) : list change :=
  let dp := computeLCS linesA linesB in
  match bt_loop linesA linesB dp (List.length linesA + List.length linesB)
          (List.length linesA, List.length linesB, []) with
  | Some (_, _, backtrack) => rev backtrack
  | None => []
  end.

(* ------------------------------------------------------------------ *)
(** ** Hunk grouping of [computeUnifiedDiff] *)

Record DiffHunk := mkHunk {
  startA : Z;
  countA : Z;
  startB : Z;
  countB : Z;
  lines : list string
}.

(** The mutable locals of the grouping loop. *)
Record St := mkSt {
  hunks : list DiffHunk;
  hunkLines : list string;
  hunkStartA : Z;
  hunkStartB : Z;
  hunkCountA : Z;
  hunkCountB : Z;
  lastChangeIdx : Z
}.

Definition init_st : St := mkSt [] [] 0 0 0 0 (-999).

(** [` ${text}`], [`-${text}`], [`+${text}`] *)
Definition ctx_line (x : change) : string := String.append " " (text x).
Definition del_line (x : change) : string := String.append "-" (text x).
Definition ins_line (x : change) : string := String.append "+" (text x).

(** [for (k = lastChangeIdx + 1; k < changes.length && trailingAdded < contextLines; k++)
      if (changes[k].type === 'equal') { push; trailingAdded++ }],
    run over [l = changes[lastChangeIdx+1 ..]]. *)
Fixpoint trailing (contextLines : nat) (l : list change) (trailingAdded : nat)
  : list string :=
  match l with
  | [] => []
  | x :: l' =>
      if trailingAdded <? contextLines then
        if is_equal x then ctx_line x :: trailing contextLines l' (S trailingAdded)
        else trailing contextLines l' trailingAdded
      else []
  end.

(** [for (k = idx - 1; k >= 0 && contextCount < contextLines; k--)
      { if equal { unshift; contextCount++ } else break; }],
    run over [l = changes[idx-1], changes[idx-2], ...]; returns the
    context lines and [contextCount]. *)
Fixpoint leading (contextLines : nat) (l : list change) (contextCount : nat)
    (acc : list string) : list string * nat :=
  match l with
  | [] => (acc, contextCount)
  | x :: l' =>
      if contextCount <? contextLines then
        if is_equal x then leading contextLines l' (S contextCount) (ctx_line x :: acc)
        else (acc, contextCount)
      else (acc, contextCount)
  end.

(** [for (k = lastChangeIdx + 1; k < idx; k++) if equal push], run over the
    slice [changes[lastChangeIdx+1 .. idx-1]]. *)
Definition gap_lines (l : list change) : list string :=
  map ctx_line (filter is_equal l).

(** Closing the current hunk: trailing context, then
    [hunks.push({...})], [hunkLines = []], counts reset. *)
Definition close_hunk (changes : list change) (contextLines : nat) (st : St) : St :=
  let tr := trailing contextLines
              (skipn (Z.to_nat (lastChangeIdx st + 1)) changes) 0 in
  let cA := (hunkCountA st + Z.of_nat (List.length tr))%Z in
  let cB := (hunkCountB st + Z.of_nat (List.length tr))%Z in
  mkSt (hunks st ++ [mkHunk (hunkStartA st) cA (hunkStartB st) cB (hunkLines st ++ tr)])
       [] (hunkStartA st) (hunkStartB st) 0 0 (lastChangeIdx st).

(** [hunkStartA] before the subtraction of [contextCount]:
    [c.lineA !== undefined ? c.lineA
       : (changes[idx-1]?.lineA !== undefined ? changes[idx-1].lineA + 1 : 0)]. *)
Definition base_pos (sel : change -> option nat) (changes : list change)
    (idx : nat) (x : change) : Z :=
  match sel x with
  | Some a => Z.of_nat a
  | None =>
      match (match idx with O => None | S k => nth_error changes k end) with
      | Some p => match sel p with Some a => Z.of_nat a + 1 | None => 0 end
      | None => 0
      end
  end%Z.

Definition clamp0 (z : Z) : Z := if (z <? 0)%Z then 0%Z else z.

(** First block of the loop body: [contextStart] is unused; the first
    change takes the empty branch, a change far from the previous one
    closes the open hunk. *)
Definition pre_close (changes : list change) (contextLines : nat) (idx : nat) (st : St) : St :=
  let far := (Z.of_nat idx - lastChangeIdx st >? Z.of_nat contextLines * 2 + 1)%Z in
  if far && (List.length (hunks st) =? 0) && (List.length (hunkLines st) =? 0)
     && (lastChangeIdx st <? 0)%Z then st
  else if far && (0 <? List.length (hunkLines st)) then close_hunk changes contextLines st
  else st.

(** Second block: leading context and start positions of a new hunk, or the
    equal lines of the gap to the previous change. *)
Definition open_or_fill (changes : list change) (contextLines : nat) (idx : nat)
    (x : change) (st1 : St) : St :=
  if List.length (hunkLines st1) =? 0 then
    let '(lead, contextCount) :=
      leading contextLines (rev (firstn idx changes)) 0 (hunkLines st1) in
    let sA := (base_pos lineA changes idx x - Z.of_nat contextCount)%Z in
    let sB := (base_pos lineB changes idx x - Z.of_nat contextCount)%Z in
    mkSt (hunks st1) lead (clamp0 sA) (clamp0 sB)
         (Z.of_nat contextCount) (Z.of_nat contextCount) (lastChangeIdx st1)
  else
    let s := Z.to_nat (lastChangeIdx st1 + 1) in
    let g := gap_lines (firstn (idx - s) (skipn s changes)) in
    mkSt (hunks st1) (hunkLines st1 ++ g) (hunkStartA st1) (hunkStartB st1)
         (hunkCountA st1 + Z.of_nat (List.length g))%Z
         (hunkCountB st1 + Z.of_nat (List.length g))%Z (lastChangeIdx st1).

(** Third block: the change line itself, and [lastChangeIdx = idx]. *)
Definition push_change (idx : nat) (x : change) (st2 : St) : St :=
  match type x with
  | CDelete =>
      mkSt (hunks st2) (hunkLines st2 ++ [del_line x]) (hunkStartA st2) (hunkStartB st2)
           (hunkCountA st2 + 1)%Z (hunkCountB st2) (Z.of_nat idx)
  | _ =>
      mkSt (hunks st2) (hunkLines st2 ++ [ins_line x]) (hunkStartA st2) (hunkStartB st2)
           (hunkCountA st2) (hunkCountB st2 + 1)%Z (Z.of_nat idx)
  end.

(** Body of [for (idx ...)] for [c = changes[idx]]: equal records are
    skipped. *)
Definition group_step (changes : list change) (contextLines : nat) (idx : nat)
    (x : change) (st : St) : St :=
  if is_equal x then st
  else push_change idx x
         (open_or_fill changes contextLines idx x (pre_close changes contextLines idx st)).

(** The loop over [idx = start, start+1, ...] with [l = changes[start..]]. *)
Fixpoint group_from (changes : list change) (contextLines : nat) (idx : nat)
    (l : list change) (st : St) : St :=
  match l with
  | [] => st
  | x :: l' => group_from changes contextLines (S idx) l'
                 (group_step changes contextLines idx x st)
  end.

(** The loop, then "Close last hunk". *)
Definition group (changes : list change) (contextLines : nat) : St :=
  let st := group_from changes contextLines 0 changes init_st in
  if 0 <? List.length (hunkLines st) then close_hunk changes contextLines st else st.

Definition diff_hunks (linesA linesB : list string) (contextLines : nat) : list DiffHunk :=
  hunks (group (diff_changes linesA linesB) contextLines).

(* ------------------------------------------------------------------ *)
(** ** Rendering *)

(** Decimal rendering of a number in a template literal. *)
Fixpoint digits (fuel : nat) (n : Z) (acc : string) : string :=
  match fuel with
  | O => acc
  | S f =>
      let acc' := String (ascii_of_nat (48 + Z.to_nat (n mod 10))) acc in
      if (n <? 10)%Z then acc' else digits f (n / 10)%Z acc'
  end.

Definition show_Z (n : Z) : string :=
  if (n <? 0)%Z then String.append "-" (digits 64 (- n) "") else digits 64 n "".

Definition hunk_header (h : DiffHunk) : string :=
  String.concat "" ["@@ -"; show_Z (startA h + 1)%Z; ","; show_Z (countA h);
                    " +"; show_Z (startB h + 1)%Z; ","; show_Z (countB h); " @@"].

Definition render (hs : list DiffHunk) (fileA fileB : string) : string :=
  match hs with
  | [] => ""
  | _ =>
      String.concat (String (ascii_of_nat 10) "")
        ([String.append "--- " fileA; String.append "+++ " fileB]
           ++ flat_map (fun h => hunk_header h :: lines h) hs)
  end.

Definition computeUnifiedDiff (linesA linesB : list string) (contextLines : nat)
    (fileA fileB : string) : string :=
  render (diff_hunks linesA linesB contextLines) fileA fileB.

Definition nl : string := String (ascii_of_nat 10) "".

(* ------------------------------------------------------------------ *)
(** ** Input validation of the [cc_diff_files] tool

    The tool's [inputSchema] is
    [file_a: z.string().min(1)], [file_b: z.string().min(1)] and
    [context_lines: z.number().int().min(0).max(20).default(3)].
    A JavaScript number is a rational, [NaN] or an infinity; a value of
    another JSON type is [JOther]; a missing field is [JUndefined]. *)

Inductive JSNumber := Finite (q : Q) | NaN | PosInf | NegInf.

Inductive JSValue := JUndefined | JNum (x : JSNumber) | JStr (s : string) | JOther.

(** [Number.isInteger]. *)
Definition is_integer (q : Q) : bool :=
  Z.eqb (Z.modulo (Qnum q) (Zpos (Qden q))) 0.

(** [z.number().int().min(0).max(20).default(3)]: [Some n] when the value
    is accepted as the integer [n], [None] when parsing fails. *)
Definition context_lines_schema (v : JSValue) : option nat :=
  match v with
  | JUndefined => Some 3
  | JNum (Finite q) =>
      if is_integer q && Qle_bool 0 q && Qle_bool q 20
      then Some (Z.to_nat (Z.div (Qnum q) (Zpos (Qden q))))
      else None
  | _ => None
  end.

(** [z.string().min(1)]. *)
Definition file_schema (v : JSValue) : option string :=
  match v with
  | JStr s => if 1 <=? String.length s then Some s else None
  | _ => None
  end.

(** The outcome of a call: the schema rejects it, or the handler runs with
    [fileA], [fileB] and [contextCount = params.context_lines ?? 3]. *)
Inductive outcome := InvalidParams | Handler (fileA fileB : string) (contextCount : nat).

Definition cc_diff_files_validate (file_a file_b context_lines : JSValue) : outcome :=
  match file_schema file_a, file_schema file_b, context_lines_schema context_lines with
  | Some fa, Some fb, Some n => Handler fa fb n
  | _, _, _ => InvalidParams
  end.

(* ------------------------------------------------------------------ *)
(** ** The [cc_diff_files] handler after the two files are read *)

(** [s.includes('\n')]. *)
Fixpoint has_nl (s : string) : bool :=
  match s with
  | EmptyString => false
  | String a s' => Ascii.eqb a (ascii_of_nat 10) || has_nl s'
  end.

(** [s.split('\n')]: [""] gives [[""]], and every newline starts a new
    element. *)
Fixpoint split_nl (s : string) : list string :=
  match s with
  | EmptyString => [EmptyString]
  | String a s' =>
      let r := split_nl s' in
      if Ascii.eqb a (ascii_of_nat 10) then EmptyString :: r
      else match r with
           | l :: rest => String a l :: rest
           | [] => [String a EmptyString]
           end
  end.

(** [for (const line of diffLines) { if (line.startsWith('+') &&
    !line.startsWith('+++')) added++; ... }] *)
Definition count_added (diffLines : list string) : nat :=
  List.length (filter (fun line => prefix "+" line && negb (prefix "+++" line)) diffLines).

Definition count_removed (diffLines : list string) : nat :=
  List.length (filter (fun line => prefix "-" line && negb (prefix "---" line)) diffLines).

(** The outcome of the handler: the "identical" message when
    [contentA === contentB], otherwise the counted summary and the diff. *)
Inductive diff_report :=
  | Identical
  | Report (added removed : nat) (diffOutput : string).

Definition cc_diff_files_report (contentA contentB : string) (contextCount : nat)
    (fileA fileB : string) : diff_report :=
  let linesA := split_nl contentA in
  let linesB := split_nl contentB in
  if String.eqb contentA contentB then Identical
  else
    let diffOutput := computeUnifiedDiff linesA linesB contextCount fileA fileB in
    let diffLines := split_nl diffOutput in
    Report (count_added diffLines) (count_removed diffLines) diffOutput.

(* ------------------------------------------------------------------ *)
(** ** Python imports: [classifyImport] and [cc_organize_imports]

    Strings are read as sequences of UTF-16 code units below 256; on those,
    JavaScript's white space ([String.prototype.trim], [\s] in a regular
    expression) is the code units 9 to 13, 32 and 160. *)

Definition is_ws (a : ascii) : bool :=
  let n := nat_of_ascii a in ((9 <=? n) && (n <=? 13)) || (n =? 32) || (n =? 160).

Fixpoint ltrim (s : string) : string :=
  match s with
  | EmptyString => EmptyString
  | String a s' => if is_ws a then ltrim s' else s
  end.

Fixpoint rtrim (s : string) : string :=
  match s with
  | EmptyString => EmptyString
  | String a s' =>
      let r := rtrim s' in
      if is_ws a && String.eqb r "" then EmptyString else String a r
  end.

(** [s.trim()] *)
Definition trim (s : string) : string := rtrim (ltrim s).

Definition STDLIB_MODULES : list string := [
  "abc"; "aifc"; "argparse"; "array"; "ast"; "asyncio"; "atexit"; "base64";
  "binascii"; "bisect"; "builtins"; "calendar"; "cgi"; "cmd"; "code";
  "codecs"; "collections"; "colorsys"; "compileall"; "configparser";
  "contextlib"; "copy"; "copyreg"; "csv"; "ctypes"; "curses"; "dataclasses";
  "datetime"; "decimal"; "difflib"; "dis"; "distutils"; "doctest"; "email";
  "encodings"; "enum"; "errno"; "faulthandler"; "fcntl"; "filecmp";
  "fileinput"; "fnmatch"; "fractions"; "ftplib"; "functools"; "gc"; "getopt";
  "getpass"; "gettext"; "glob"; "gzip"; "hashlib"; "heapq"; "hmac"; "html";
  "http"; "idlelib"; "imaplib"; "importlib"; "inspect"; "io"; "ipaddress";
  "itertools"; "json"; "keyword"; "lib2to3"; "linecache"; "locale";
  "logging"; "lzma"; "mailbox"; "math"; "mimetypes"; "mmap"; "modulefinder";
  "multiprocessing"; "netrc"; "numbers"; "operator"; "optparse"; "os";
  "pathlib"; "pdb"; "pickle"; "pickletools"; "pkgutil"; "platform";
  "plistlib"; "poplib"; "posixpath"; "pprint"; "profile"; "pstats";
  "py_compile"; "pyclbr"; "pydoc"; "queue"; "quopri"; "random"; "re";
  "readline"; "reprlib"; "resource"; "rlcompleter"; "runpy"; "sched";
  "secrets"; "select"; "selectors"; "shelve"; "shlex"; "shutil"; "signal";
  "site"; "smtpd"; "smtplib"; "sndhdr"; "socket"; "socketserver"; "sqlite3";
  "ssl"; "stat"; "statistics"; "string"; "stringprep"; "struct";
  "subprocess"; "sunau"; "symtable"; "sys"; "sysconfig"; "syslog";
  "tabnanny"; "tarfile"; "tempfile"; "test"; "textwrap"; "threading"; "time";
  "timeit"; "tkinter"; "token"; "tokenize"; "trace"; "traceback";
  "tracemalloc"; "tty"; "turtle"; "turtledemo"; "types"; "typing";
  "unicodedata"; "unittest"; "urllib"; "uu"; "uuid"; "venv"; "warnings";
  "wave"; "weakref"; "webbrowser"; "winreg"; "winsound"; "wsgiref"; "xdrlib";
  "xml"; "xmlrpc"; "zipapp"; "zipfile"; "zipimport"; "zlib"; "_thread";
  "__future__"
].

(** [module.split('.')[0]] *)
Fixpoint before_dot (s : string) : string :=
  match s with
  | EmptyString => EmptyString
  | String a s' => if Ascii.eqb a "." then EmptyString else String a (before_dot s')
  end.

Inductive import_type := stdlib | third_party | local.

Definition import_type_eqb (a b : import_type) : bool :=
  match a, b with
  | stdlib, stdlib | third_party, third_party | local, local => true
  | _, _ => false
  end.

Definition classifyImport (module : string) : import_type :=
  if prefix "." module then local
  else if existsb (String.eqb (before_dot module)) STDLIB_MODULES then stdlib
  else third_party.

(** [trimmed.startsWith('import ') || trimmed.startsWith('from ')] *)
Definition is_import_line (trimmed : string) : bool :=
  prefix "import " trimmed || prefix "from " trimmed.

(** The scan of [cc_organize_imports] over [lines[i..]]: the index of the
    first import line, of the last one, and the trimmed import lines;
    [break] when a code line follows the last import by more than two
    lines. *)
Fixpoint scan_imports (i : nat) (lines : list string) (importStart importEnd : Z)
    (importLines : list string) : Z * Z * list string :=
  match lines with
  | [] => (importStart, importEnd, importLines)
  | l :: rest =>
      let trimmed := trim l in
      if is_import_line trimmed then
        scan_imports (S i) rest
          (if (importStart =? -1)%Z then Z.of_nat i else importStart) (Z.of_nat i)
          (importLines ++ [trimmed])
      else if negb (importStart =? -1)%Z && negb (String.eqb trimmed "")
              && negb (prefix "#" trimmed) then
        if (importEnd <? Z.of_nat i - 2)%Z then (importStart, importEnd, importLines)
        else scan_imports (S i) rest importStart importEnd importLines
      else scan_imports (S i) rest importStart importEnd importLines
  end.

(** [[...new Set(importLines)]]: first occurrences, in order. *)
Fixpoint set_unique (seen : list string) (l : list string) : list string :=
  match l with
  | [] => []
  | x :: l' =>
      if existsb (String.eqb x) seen then set_unique seen l'
      else x :: set_unique (x :: seen) l'
  end.

(** [s.includes(sub)] *)
Fixpoint includes (sub s : string) : bool :=
  prefix sub s || match s with EmptyString => false | String _ s' => includes sub s' end.

(** The longest prefix without white space. *)
Fixpoint take_nonws (s : string) : string :=
  match s with
  | EmptyString => EmptyString
  | String a s' => if is_ws a then EmptyString else String a (take_nonws s')
  end.

(** [l.match(/^(?:from\s+)?(\S+)/)?.[1]?.replace(/^from\s+/, '') || '']:
    the optional group takes ["from"] and all the white space after it when
    a non-space character follows; [\S+] then takes the longest run
    without white space. The capture holds no white space, so the
    [replace] leaves it as it is; a failed match gives [''], as does an
    empty [take_nonws]. *)
Definition import_module (l : string) : string :=
  if prefix "from" l then
    let r := substring 4 (String.length l - 4) l in
    match r with
    | String a _ =>
        if is_ws a && negb (String.eqb (ltrim r) "") then take_nonws (ltrim r)
        else take_nonws l
    | EmptyString => take_nonws l
    end
  else take_nonws l.

(** [Array.prototype.sort()] on strings: code unit order. *)
Fixpoint insert_sorted (x : string) (l : list string) : list string :=
  match l with
  | [] => [x]
  | y :: l' => match String.compare x y with Gt => y :: insert_sorted x l' | _ => x :: l end
  end.

Fixpoint sort_strings (l : list string) : list string :=
  match l with
  | [] => []
  | x :: l' => insert_sorted x (sort_strings l')
  end.

(** [while (block.length > 0 && block[block.length - 1] === '') block.pop()],
    on the reversed block. *)
Fixpoint drop_empty (rl : list string) : list string :=
  match rl with
  | [] => []
  | x :: r => if String.eqb x "" then drop_empty r else rl
  end.

Record organized := mkOrganized {
  futureImports : list string;
  stdlibImports : list string;
  thirdPartyImports : list string;
  localImports : list string;
  removed : nat;
  newImportBlock : list string
}.

Definition group_block (g : list string) : list string :=
  match g with [] => [] | _ => g ++ [""] end.

(** Deduplication, classification, sorting and the new block. *)
Definition organize_block (importLines : list string) : organized :=
  let uniqueImports := set_unique [] importLines in
  let is_future l := includes "__future__" l in
  let fut := sort_strings (filter is_future uniqueImports) in
  let std := sort_strings (filter (fun l => negb (is_future l)
               && import_type_eqb (classifyImport (import_module l)) stdlib) uniqueImports) in
  let thp := sort_strings (filter (fun l =>
               import_type_eqb (classifyImport (import_module l)) third_party) uniqueImports) in
  let loc := sort_strings (filter (fun l =>
               import_type_eqb (classifyImport (import_module l)) local) uniqueImports) in
  let block := group_block fut ++ group_block std ++ group_block thp ++ group_block loc in
  mkOrganized fut std thp loc
    (List.length importLines - List.length uniqueImports)
    (rev (drop_empty (rev block))).

(** The file content [cc_organize_imports] writes (when [dry_run] is
    false): [None] when no import line is found. *)
Definition cc_organize_imports_apply (content : string) : option (organized * string) :=
  let lines := split_nl content in
  let '(importStart, importEnd, importLines) := scan_imports 0 lines (-1) (-1) [] in
  match importLines with
  | [] => None
  | _ =>
      let o := organize_block importLines in
      let newLines := firstn (Z.to_nat importStart) lines ++ newImportBlock o
                      ++ skipn (Z.to_nat (importEnd + 1)) lines in
      Some (o, String.concat nl newLines)
  end.

(* ------------------------------------------------------------------ *)
(** ** [cc_cleanup_file]

    The content is the string [fs.readFile] returns, as its list of UTF-16
    code units. *)

Inductive line_ending := LF | CRLF.

(** The parameters, after zod has filled in the defaults. *)
Record cleanup_params := mkCleanupParams {
  remove_bom : bool;
  remove_trailing_whitespace : bool;
  normalize_line_endings : option line_ending;
  remove_nul_bytes : bool
}.

Inductive cleanup_fix :=
  fixBomRemoved | fixNulRemoved | fixTrailingWhitespace | fixLineEndings (e : line_ending).

(** The line terminators of a JavaScript regular expression. *)
Definition is_line_terminator (c : N) : bool :=
  (c =? 10)%N || (c =? 13)%N || (c =? 8232)%N || (c =? 8233)%N.

Definition is_space_tab (c : N) : bool := (c =? 32)%N || (c =? 9)%N.

(** The spaces and tabs at the start of [s] are followed by a line
    terminator or by the end of [s]. *)
Fixpoint run_ends_line (s : list N) : bool :=
  match s with
  | [] => true
  | c :: s' => if is_space_tab c then run_ends_line s' else is_line_terminator c
  end.

(** [content.replace(/[ \t]+$/gm, '')]: a match starting at a space or tab
    takes the whole run of spaces and tabs from there, and exists exactly
    when that run is followed by a line terminator or by the end; a space
    or tab is removed exactly when the rest of its run is so followed. *)
Fixpoint strip_trailing_ws (s : list N) : list N :=
  match s with
  | [] => []
  | c :: s' =>
      if is_space_tab c && run_ends_line s' then strip_trailing_ws s'
      else c :: strip_trailing_ws s'
  end.

(** [content.replace(/\r\n/g, '\n')], from left to right. *)
Fixpoint crlf_to_lf (s : list N) : list N :=
  match s with
  | [] => []
  | c :: s' =>
      if (c =? 13)%N then
        match s' with
        | d :: s'' => if (d =? 10)%N then 10%N :: crlf_to_lf s'' else c :: crlf_to_lf s'
        | [] => [c]
        end
      else c :: crlf_to_lf s'
  end.

(** [content.replace(/\n/g, '\r\n')] *)
Definition lf_to_crlf (s : list N) : list N :=
  flat_map (fun c => if (c =? 10)%N then [13%N; 10%N] else [c]) s.

Definition units_eqb (a b : list N) : bool :=
  if list_eq_dec N.eq_dec a b then true else false.

(** The fixes the tool reports and the content it has at the end; with no
    fix it reports the file clean and writes nothing, and otherwise (when
    [dry_run] is false) it writes the content. *)
Definition cc_cleanup_file_apply (p : cleanup_params) (raw : list N)
    : list cleanup_fix * list N :=
  let '(c1, f1) :=
    if remove_bom p then
      match raw with
      | c :: rest => if (c =? 65279)%N then (rest, [fixBomRemoved]) else (raw, [])
      | [] => (raw, [])
      end
    else (raw, []) in
  let '(c2, f2) :=
    if remove_nul_bytes p && existsb (N.eqb 0) c1
    then (filter (fun c => negb (c =? 0)%N) c1, [fixNulRemoved]) else (c1, []) in
  let '(c3, f3) :=
    if remove_trailing_whitespace p then
      let c := strip_trailing_ws c2 in
      (c, if units_eqb c c2 then [] else [fixTrailingWhitespace])
    else (c2, []) in
  let '(c4, f4) :=
    match normalize_line_endings p with
    | None => (c3, [])
    | Some e =>
        let c := crlf_to_lf c3 in
        let c := match e with CRLF => lf_to_crlf c | LF => c end in
        (c, if units_eqb c c3 then [] else [fixLineEndings e])
    end in
  (f1 ++ f2 ++ f3 ++ f4, c4).

(* ------------------------------------------------------------------ *)
(** ** Global replacements: [cc_fix_encoding] and [cc_fix_umlauts]

    The content is again a list of UTF-16 code units. A regular expression
    is given by a matcher: the length of its match at the start of a
    suffix, if it matches there. [s.replace(re, rep)] for a global [re] and
    a replacement without [$], and [(s.match(re) || []).length], scan from
    left to right and resume after each match; the patterns of these tools
    never match the empty string. *)

Fixpoint prefixb (p s : list N) : bool :=
  match p, s with
  | [], _ => true
  | a :: p', b :: s' => (a =? b)%N && prefixb p' s'
  | _ :: _, [] => false
  end.

(** A literal pattern such as [/\u00c3\u00a4/g]. *)
Definition literal (pat : list N) (s : list N) : option nat :=
  if prefixb pat s then Some (List.length pat) else None.

(** [/ae(?=[a-z])/g]: matches ["ae"] when a lower-case ASCII letter follows. *)
Definition ae_before_lower (s : list N) : option nat :=
  match s with
  | a :: e :: c :: _ =>
      if (a =? 97)%N && (e =? 101)%N && (97 <=? c)%N && (c <=? 122)%N then Some 2 else None
  | _ => None
  end.

(** [skip]: the code units of the match just replaced that are still to be
    passed over. *)
Fixpoint replace_from (m : list N -> option nat) (rep : list N) (skip : nat) (s : list N)
    : list N :=
  match s with
  | [] => []
  | c :: s' =>
      match skip with
      | S k => replace_from m rep k s'
      | O =>
          match m s with
          | Some (S k) => rep ++ replace_from m rep k s'
          | _ => c :: replace_from m rep 0 s'
          end
      end
  end.

(** [s.replace(re, rep)] *)
Definition replace_all (m : list N -> option nat) (rep s : list N) : list N :=
  replace_from m rep 0 s.

Fixpoint count_from (m : list N -> option nat) (skip : nat) (s : list N) : nat :=
  match s with
  | [] => 0
  | c :: s' =>
      match skip with
      | S k => count_from m k s'
      | O =>
          match m s with
          | Some (S k) => S (count_from m k s')
          | _ => count_from m 0 s'
          end
      end
  end.

(** [(s.match(re) || []).length] *)
Definition count_matches (m : list N -> option nat) (s : list N) : nat := count_from m 0 s.

(** The code units of an ASCII string. *)
Definition units (s : string) : list N :=
  map (fun a => N.of_nat (nat_of_ascii a)) (list_ascii_of_string s).

(** The loop of both tools over [[pattern, replacement, label]]: the fixes
    [(label, count)] and the final content. *)
Fixpoint apply_replacements (tbl : list ((list N -> option nat) * list N * list N))
    (content : list N) : list (list N * nat) * list N :=
  match tbl with
  | [] => ([], content)
  | (pattern, replacement, label) :: tbl' =>
      let after := replace_all pattern replacement content in
      let fixes := if units_eqb after content then []
                   else [(label, count_matches pattern content)] in
      let '(fixes', out) := apply_replacements tbl' after in
      (fixes ++ fixes', out)
  end.

(** [mojibakeMap] of [cc_fix_encoding]. *)
Definition mojibakeMap : list ((list N -> option nat) * list N * list N) := [
  (literal [195; 164]%N, [228]%N, [228]%N);
  (literal [195; 182]%N, [246]%N, [246]%N);
  (literal [195; 188]%N, [252]%N, [252]%N);
  (literal [195; 132]%N, [196]%N, [196]%N);
  (literal [195; 150]%N, [214]%N, [214]%N);
  (literal [195; 156]%N, [220]%N, [220]%N);
  (literal [195; 159]%N, [223]%N, [223]%N);
  (literal [195; 169]%N, [233]%N, [233]%N);
  (literal [195; 168]%N, [232]%N, [232]%N);
  (literal [195; 160]%N, [224]%N, [224]%N);
  (literal [195; 161]%N, [225]%N, [225]%N);
  (literal [195; 174]%N, [238]%N, [238]%N);
  (literal [195; 175]%N, [239]%N, [239]%N);
  (literal [195; 180]%N, [244]%N, [244]%N);
  (literal [195; 185]%N, [249]%N, [249]%N);
  (literal [195; 167]%N, [231]%N, [231]%N);
  (literal [195; 177]%N, [241]%N, [241]%N)
].

(** The fixes and the content [cc_fix_encoding] writes (nothing is written
    when there is no fix). *)
Definition cc_fix_encoding_apply (rawContent : list N) : list (list N * nat) * list N :=
  apply_replacements mojibakeMap rawContent.

(** [umlautFixes] of [cc_fix_umlauts]; a backslash in a Rocq string is the
    character itself, so ["\u00e4"] is the text matched by [/\\u00e4/]. *)
Definition umlautFixes : list ((list N -> option nat) * list N) := [
  (literal [195; 164]%N, [228]%N);
  (literal [195; 182]%N, [246]%N);
  (literal [195; 188]%N, [252]%N);
  (literal [195; 132]%N, [196]%N);
  (literal [195; 150]%N, [214]%N);
  (literal [195; 156]%N, [220]%N);
  (literal [195; 159]%N, [223]%N);
  (literal (units "&auml;"), [228]%N);
  (literal (units "&ouml;"), [246]%N);
  (literal (units "&uuml;"), [252]%N);
  (literal (units "&Auml;"), [196]%N);
  (literal (units "&Ouml;"), [214]%N);
  (literal (units "&Uuml;"), [220]%N);
  (literal (units "&szlig;"), [223]%N);
  (literal (units "\u00e4"), [228]%N);
  (literal (units "\u00f6"), [246]%N);
  (literal (units "\u00fc"), [252]%N);
  (literal (units "\u00c4"), [196]%N);
  (literal (units "\u00d6"), [214]%N);
  (literal (units "\u00dc"), [220]%N);
  (literal (units "\u00df"), [223]%N);
  (literal [228]%N, [228]%N);
  (ae_before_lower, [228]%N)
].

(** The fixes [(replacement, count)] and the content [cc_fix_umlauts]
    writes (nothing is written when there is no fix). *)
Definition cc_fix_umlauts_apply (rawContent : list N) : list (list N * nat) * list N :=
  apply_replacements (map (fun '(pattern, replacement) => (pattern, replacement, replacement))
                        umlautFixes) rawContent.

(** [totalFixes] *)
Definition totalFixes (fixes : list (list N * nat)) : nat := list_sum (map snd fixes).

(* ------------------------------------------------------------------ *)
(** ** The line statistics of [analyzePythonCode]

    The counts [analyzePythonCode] returns beside its classes, functions
    and imports, which do not take part in them. *)

(** [\w]: [[A-Za-z0-9_]]. *)
Definition is_word (a : ascii) : bool :=
  let n := nat_of_ascii a in
  ((48 <=? n) && (n <=? 57)) || ((65 <=? n) && (n <=? 90))
  || ((97 <=? n) && (n <=? 122)) || (n =? 95).

Fixpoint str_drop (n : nat) (s : string) : string :=
  match n, s with
  | O, _ => s
  | S n', String _ s' => str_drop n' s'
  | S _, EmptyString => EmptyString
  end.

(** [\b] after a word character: the end of the string or a non-word
    character follows. *)
Definition word_boundary (rest : string) : bool :=
  match rest with
  | EmptyString => true
  | String a _ => negb (is_word a)
  end.

Definition branch_keywords : list string :=
  ["if"; "elif"; "for"; "while"; "except"; "with"; "and"; "or"].

(** [/^\s*(if|elif|for|while|except|with|and|or)\b/.test(line)]: no keyword
    starts with white space, so [\s*] takes all the leading white space. *)
Definition branch_line (line : string) : bool :=
  let t := ltrim line in
  existsb (fun kw => prefix kw t && word_boundary (str_drop (String.length kw) t))
    branch_keywords.

Record line_stats := mkLineStats {
  totalLines : nat;
  codeLines : nat;
  commentLines : nat;
  blankLines : nat;
  complexity : nat
}.

(** One iteration of [for (const line of lines)]. *)
Definition count_line (st : line_stats) (line : string) : line_stats :=
  let trimmed := trim line in
  let '(c, cm, b) :=
    if String.eqb trimmed "" then (codeLines st, commentLines st, S (blankLines st))
    else if prefix "#" trimmed then (codeLines st, S (commentLines st), blankLines st)
    else (S (codeLines st), commentLines st, blankLines st) in
  mkLineStats (totalLines st) c cm b
    (if branch_line line then S (complexity st) else complexity st).

Definition analyze_line_stats (content : string) : line_stats :=
  let lines := split_nl content in
  fold_left count_line lines (mkLineStats (List.length lines) 0 0 0 0).

Example scenario2 :
  computeUnifiedDiff ["a"; "b"; "c"] ["a"; "x"; "c"] 3 "A" "B"
  = String.concat nl ["--- A"; "+++ B"; "@@ -1,3 +1,3 @@"; " a"; "-b"; "+x"; " c"].
Proof. vm_compute. reflexivity. Qed.

Example scenario3 :
  computeUnifiedDiff ["1";"2";"3";"4";"5";"6";"7";"8";"9";"10"]
                     ["1";"2";"3";"4";"five";"6";"7";"8";"9";"10"] 3 "A" "B"
  = String.concat nl ["--- A"; "+++ B"; "@@ -2,7 +2,7 @@"; " 2"; " 3"; " 4"; "-5"; "+five";
                      " 6"; " 7"; " 8"].
Proof. vm_compute. reflexivity. Qed.

(* ------------------------------------------------------------------ *)
(** ** The LCS length, as a recursive function on lists *)

(** [L X Y]: the length of a longest common subsequence of [X] and [Y]. *)
Fixpoint L (X Y : list string) : nat :=
  match X with
  | [] => 0
  | x :: X' =>
      (fix Lx (Y : list string) : nat :=
         match Y with
         | [] => 0
         | y :: Y' =>
             Nat.max (if String.eqb x y then S (L X' Y') else 0)
                     (Nat.max (L X' Y) (Lx Y'))
         end) Y
  end.

(** [D A B i j]: the LCS length of the first [i] lines of [A] and the first
    [j] lines of [B] (the value [dp[i][j]] stands for). *)
Definition D (A B : list string) (i j : nat) : nat :=
  L (rev (firstn i A)) (rev (firstn j B)).

Definition row (A B : list string) (i : nat) : list nat :=
  map (D A B i) (seq 0 (S (List.length B))).

(* ------------------------------------------------------------------ *)
(** ** Reading a change list back *)

(** Texts of the [Equal] and [Delete] records, in order. *)
Fixpoint projA (l : list change) : list string :=
  match l with
  | [] => []
  | x :: l' => match type x with CInsert => projA l' | _ => text x :: projA l' end
  end.

(** Texts of the [Equal] and [Insert] records, in order. *)
Fixpoint projB (l : list change) : list string :=
  match l with
  | [] => []
  | x :: l' => match type x with CDelete => projB l' | _ => text x :: projB l' end
  end.

Fixpoint n_of (t : ctype) (l : list change) : nat :=
  match l with
  | [] => 0
  | x :: l' =>
      (match type x, t with
       | CEqual, CEqual | CDelete, CDelete | CInsert, CInsert => 1
       | _, _ => 0
       end) + n_of t l'
  end.

(** Invariant of the backtracking loop at [(i, j, backtrack)]. *)
Definition bt_inv (A B : list string) (i j : nat) (bt : list change) : Prop :=
  i <= List.length A /\ j <= List.length B /\
  firstn i A ++ projA (rev bt) = A /\
  firstn j B ++ projB (rev bt) = B /\
  n_of CEqual bt + D A B i j = D A B (List.length A) (List.length B).

Definition bt_measure (st : nat * nat * list change) : nat :=
  let '(i, j, _) := st in i + j.

(* ------------------------------------------------------------------ *)
(** ** Reading the hunks back *)

Definition first_char (s : string) : option ascii :=
  match s with String a _ => Some a | EmptyString => None end.

(** Number of lines starting with the character [ch]. *)
Definition n_prefixed (ch : ascii) (l : list string) : nat :=
  List.length (filter (fun s => match first_char s with
                                | Some a => Ascii.eqb a ch
                                | None => false end) l).

(** All lines of all hunks, in order. *)
Definition hunk_body (hs : list DiffHunk) : list string := flat_map lines hs.

(** Lines of the closed hunks followed by the lines of the open hunk. *)
Definition all_lines (st : St) : list string := hunk_body (hunks st) ++ hunkLines st.

Definition all_ctx (l : list string) : Prop := Forall (fun s => first_char s = Some " "%char) l.

(* ------------------------------------------------------------------ *)
(** ** Which hunk a change lands in *)

Definition dflt_change : change := mkChange CEqual None None "".
Definition dflt_hunk : DiffHunk := mkHunk 0 0 0 0 [].

(** [changes[p]] *)
Definition chg_at (changes : list change) (p : nat) : change := nth p changes dflt_change.

(** The loop state after the records [0 .. n-1]. *)
Definition state_after (changes : list change) (c n : nat) : St :=
  group_from changes c 0 (firstn n changes) init_st.

(** The index, in the final list of hunks, of the hunk that receives the
    line of the change at [p]: the number of hunks closed once [p] has been
    processed (the open hunk is pushed next). *)
Definition hunk_of (changes : list change) (c p : nat) : nat :=
  List.length (hunks (state_after changes c (S p))).

(** Length of the run of [Equal] records at the head of [l]. *)
Fixpoint eq_run (l : list change) : nat :=
  match l with
  | [] => 0
  | x :: l' => if is_equal x then S (eq_run l') else 0
  end.

(** Number of [Equal] records immediately before / after position [p]. *)
Definition eq_before (changes : list change) (p : nat) : nat := eq_run (rev (firstn p changes)).
Definition eq_after (changes : list change) (p : nat) : nat := eq_run (skipn (S p) changes).

Definition is_ctx_line (s : string) : bool :=
  match first_char s with Some a => Ascii.eqb a " " | None => false end.

(** Number of context lines at the head of a list of hunk lines. *)
Fixpoint ctx_prefix_len (l : list string) : nat :=
  match l with
  | [] => 0
  | s :: l' => if is_ctx_line s then S (ctx_prefix_len l') else 0
  end.

Definition lead_ctx (h : DiffHunk) : nat := ctx_prefix_len (lines h).
Definition trail_ctx (h : DiffHunk) : nat := ctx_prefix_len (rev (lines h)).

(** [st] is a later state of the loop than [st0]: hunks were only appended,
    and the hunk open in [st0] was only extended (and possibly closed). *)
Definition extends (st0 st : St) : Prop :=
  exists tl, hunks st = hunks st0 ++ tl /\
  (hunkLines st0 <> [] ->
   (tl = [] /\ exists more, hunkLines st = hunkLines st0 ++ more) \/
   (exists h rest more, tl = h :: rest /\ lines h = hunkLines st0 ++ more)).

Module LcsFacts.

Lemma L_cons_cons x X y Y :
  L (x :: X) (y :: Y) =
  Nat.max (if String.eqb x y then S (L X Y) else 0)
          (Nat.max (L X (y :: Y)) (L (x :: X) Y)).
Proof. reflexivity. Qed.

Lemma L_nil_r X : L X [] = 0.
Proof. destruct X; reflexivity. Qed.

Lemma L_mono_l x X Y : L X Y <= L (x :: X) Y.
Proof. destruct Y as [|y Y]; [rewrite !L_nil_r; lia | rewrite L_cons_cons; lia]. Qed.

Lemma L_mono_r y X Y : L X Y <= L X (y :: Y).
Proof. destruct X as [|x X]; [simpl; lia | rewrite L_cons_cons; lia]. Qed.

Lemma L_succ_r y X Y : L X (y :: Y) <= S (L X Y).
Proof.
  induction X as [|x X IH]; [simpl; lia|].
  rewrite L_cons_cons. pose proof (L_mono_l x X Y).
  destruct (String.eqb x y); lia.
Qed.

Lemma L_succ_l x X Y : L (x :: X) Y <= S (L X Y).
Proof.
  induction Y as [|y Y IH]; [rewrite !L_nil_r; lia|].
  rewrite L_cons_cons. pose proof (L_mono_r y X Y).
  destruct (String.eqb x y); lia.
Qed.

(** The recurrence of [computeLCS]. *)
Lemma L_rec x X y Y :
  L (x :: X) (y :: Y) =
  if String.eqb x y then S (L X Y) else Nat.max (L X (y :: Y)) (L (x :: X) Y).
Proof.
  rewrite L_cons_cons. pose proof (L_succ_r y X Y). pose proof (L_succ_l x X Y).
  destruct (String.eqb x y); lia.
Qed.

Lemma L_sym X Y : L X Y = L Y X.
Proof.
  revert Y; induction X as [|x X IHX]; intros Y.
  - rewrite L_nil_r. reflexivity.
  - induction Y as [|y Y IHY]; [reflexivity|].
    rewrite !L_rec, String.eqb_sym, IHX, IHY, (IHX (y :: Y)).
    destruct (String.eqb y x); lia.
Qed.

Lemma firstn_S_at (A : list string) i :
  i < List.length A -> firstn (S i) A = firstn i A ++ [at_ A i].
Proof.
  revert i; induction A as [|a A IH]; intros i Hi; simpl in Hi; [lia|].
  destruct i; [reflexivity|].
  change (at_ (a :: A) (S i)) with (at_ A i).
  change (firstn (S (S i)) (a :: A)) with (a :: firstn (S i) A).
  rewrite IH by lia. reflexivity.
Qed.

Lemma skipn_at (A : list string) i :
  i < List.length A -> skipn i A = at_ A i :: skipn (S i) A.
Proof.
  revert i; induction A as [|a A IH]; intros i Hi; simpl in Hi; [lia|].
  destruct i; [reflexivity|].
  change (at_ (a :: A) (S i)) with (at_ A i).
  apply IH. lia.
Qed.

Lemma D_0_l A B j : D A B 0 j = 0.
Proof. reflexivity. Qed.

Lemma D_0_r A B i : D A B i 0 = 0.
Proof. unfold D. simpl. apply L_nil_r. Qed.

Lemma D_rec A B i j :
  i < List.length A -> j < List.length B ->
  D A B (S i) (S j) =
  if String.eqb (at_ A i) (at_ B j) then S (D A B i j)
  else Nat.max (D A B i (S j)) (D A B (S i) j).
Proof.
  intros Hi Hj. unfold D.
  rewrite (firstn_S_at A i Hi), (firstn_S_at B j Hj), !rev_app_distr.
  apply L_rec.
Qed.

Lemma nth_row A B i j : j <= List.length B -> nth j (row A B i) 0 = D A B i j.
Proof.
  intros Hj. unfold row.
  rewrite (nth_indep _ 0 (D A B i 0)) by (rewrite length_map, length_seq; lia).
  rewrite map_nth, seq_nth by lia. reflexivity.
Qed.

Lemma skipn_row A B i j :
  j <= List.length B -> skipn j (row A B i) = D A B i j :: skipn (S j) (row A B i).
Proof.
  intros Hj. unfold row. rewrite !skipn_map, !skipn_seq.
  replace (S (List.length B) - j) with (S (S (List.length B) - S j)) by lia.
  simpl. reflexivity.
Qed.

Lemma next_row_ok A B i :
  i < List.length A ->
  forall k j, j + k = List.length B ->
  next_row (at_ A i) (skipn j B) (skipn j (row A B i)) (D A B (S i) j)
  = map (D A B (S i)) (seq (S j) k).
Proof.
  intros Hi k; induction k as [|k IH]; intros j Hjk.
  - rewrite skipn_all2 by lia. reflexivity.
  - rewrite (skipn_at B j) by lia.
    rewrite (skipn_row A B i j) by lia.
    rewrite (skipn_row A B i (S j)) by lia.
    cbn [next_row].
    rewrite <- (skipn_row A B i (S j)) by lia.
    match goal with
    | |- context [if ?c then ?a else ?b] =>
        replace (if c then a else b) with (D A B (S i) (S j))
          by (rewrite D_rec by lia; destruct c; lia)
    end.
    rewrite IH by lia. reflexivity.
Qed.

Lemma build_rows_ok A B :
  forall k i, i + k = List.length A ->
  build_rows (skipn i A) B (row A B i) = map (row A B) (seq (S i) k).
Proof.
  induction k as [|k IH]; intros i Hik.
  - rewrite skipn_all2 by lia. reflexivity.
  - rewrite (skipn_at A i) by lia. cbn [build_rows].
    assert (Hr : 0 :: next_row (at_ A i) B (row A B i) 0 = row A B (S i)).
    { pose proof (next_row_ok A B i ltac:(lia) (List.length B) 0 ltac:(lia)) as H.
      rewrite D_0_r in H. simpl skipn in H. rewrite H.
      unfold row. simpl. rewrite D_0_r. reflexivity. }
    rewrite Hr, IH by lia. reflexivity.
Qed.

Lemma computeLCS_ok A B : computeLCS A B = map (row A B) (seq 0 (S (List.length A))).
Proof.
  unfold computeLCS.
  assert (H0 : repeat 0 (List.length B + 1) = row A B 0).
  { unfold row. rewrite (map_ext _ (fun _ => 0)) by (intros; apply D_0_l).
    rewrite map_const, length_seq. f_equal. lia. }
  rewrite H0. pose proof (build_rows_ok A B (List.length A) 0 ltac:(lia)) as H.
  simpl skipn in H. rewrite H. reflexivity.
Qed.

Lemma get_ok A B i j :
  i <= List.length A -> j <= List.length B -> get (computeLCS A B) i j = D A B i j.
Proof.
  intros Hi Hj. unfold get. rewrite computeLCS_ok.
  rewrite (nth_indep _ [] (row A B 0)) by (rewrite length_map, length_seq; lia).
  rewrite map_nth, seq_nth by lia. simpl. apply nth_row. exact Hj.
Qed.

End LcsFacts.

Module Backtrack.
Import LcsFacts.

Lemma n_of_app t l1 l2 : n_of t (l1 ++ l2) = n_of t l1 + n_of t l2.
Proof. induction l1 as [|x l1 IH]; simpl; [reflexivity|]. rewrite IH. lia. Qed.

Lemma n_of_rev t l : n_of t (rev l) = n_of t l.
Proof. induction l as [|x l IH]; simpl; [reflexivity|]. rewrite n_of_app, IH. simpl. lia. Qed.

Lemma projA_app l1 l2 : projA (l1 ++ l2) = projA l1 ++ projA l2.
Proof. induction l1 as [|x l1 IH]; simpl; [reflexivity|]. destruct (type x); simpl; rewrite IH; reflexivity. Qed.

Lemma projB_app l1 l2 : projB (l1 ++ l2) = projB l1 ++ projB l2.
Proof. induction l1 as [|x l1 IH]; simpl; [reflexivity|]. destruct (type x); simpl; rewrite IH; reflexivity. Qed.

Lemma projA_rev l : projA (rev l) = rev (projA l).
Proof.
  induction l as [|x l IH]; simpl; [reflexivity|].
  rewrite projA_app, IH. simpl. destruct (type x); simpl; rewrite ?app_nil_r; reflexivity.
Qed.

Lemma projB_rev l : projB (rev l) = rev (projB l).
Proof.
  induction l as [|x l IH]; simpl; [reflexivity|].
  rewrite projB_app, IH. simpl. destruct (type x); simpl; rewrite ?app_nil_r; reflexivity.
Qed.

Lemma length_projA l : List.length (projA l) = n_of CEqual l + n_of CDelete l.
Proof. induction l as [|x l IH]; simpl; [reflexivity|]. destruct (type x); simpl; lia. Qed.

Lemma length_projB l : List.length (projB l) = n_of CEqual l + n_of CInsert l.
Proof. induction l as [|x l IH]; simpl; [reflexivity|]. destruct (type x); simpl; lia. Qed.

Section Inv.
Variables A B : list string.

Lemma inv_equal i j bt :
  bt_inv A B (S i) (S j) bt -> at_ A i = at_ B j ->
  bt_inv A B i j (bt ++ [mkChange CEqual (Some i) (Some j) (at_ A i)]).
Proof.
  unfold bt_inv. intros (Hi & Hj & HA & HB & HD) He.
  rewrite rev_unit, n_of_app. simpl.
  rewrite (firstn_S_at A i), <- app_assoc in HA by lia.
  rewrite (firstn_S_at B j), <- app_assoc in HB by lia.
  rewrite D_rec, He, String.eqb_refl in HD by lia.
  rewrite He in HA |- *. simpl in *. repeat split; auto; lia.
Qed.

Lemma inv_insert i j bt :
  bt_inv A B i (S j) bt -> D A B i (S j) = D A B i j ->
  bt_inv A B i j (bt ++ [mkChange CInsert None (Some j) (at_ B j)]).
Proof.
  unfold bt_inv. intros (Hi & Hj & HA & HB & HD) He.
  rewrite rev_unit, n_of_app. simpl.
  rewrite (firstn_S_at B j), <- app_assoc in HB by lia.
  simpl in *. repeat split; auto; lia.
Qed.

Lemma inv_delete i j bt :
  bt_inv A B (S i) j bt -> D A B (S i) j = D A B i j ->
  bt_inv A B i j (bt ++ [mkChange CDelete (Some i) None (at_ A i)]).
Proof.
  unfold bt_inv. intros (Hi & Hj & HA & HB & HD) He.
  rewrite rev_unit, n_of_app. simpl.
  rewrite (firstn_S_at A i), <- app_assoc in HA by lia.
  simpl in *. repeat split; auto; lia.
Qed.

Lemma inv_step i j bt :
  bt_inv A B i j bt -> bt_guard (i, j, bt) = true ->
  let '(i', j', bt') := bt_step A B (computeLCS A B) (i, j, bt) in
  bt_inv A B i' j' bt' /\ i' + j' < i + j.
Proof.
  intros Hinv Hg. pose proof Hinv as (Hi & Hj & _).
  unfold bt_step.
  destruct i as [|i]; destruct j as [|j]; simpl in Hg; try discriminate.
  - (* i = 0: Insert *)
    simpl. rewrite Nat.sub_0_r. split; [|lia].
    apply inv_insert; [exact Hinv | rewrite !D_0_l; reflexivity].
  - (* j = 0: Delete *)
    simpl. rewrite Nat.sub_0_r. split; [|lia].
    apply inv_delete; [exact Hinv | rewrite !D_0_r; reflexivity].
  - simpl. rewrite !Nat.sub_0_r.
    destruct (String.eqb (at_ A i) (at_ B j)) eqn:He.
    + apply String.eqb_eq in He. split; [|lia]. apply inv_equal; auto.
    + rewrite !get_ok by lia.
      pose proof (D_rec A B i j ltac:(lia) ltac:(lia)) as HR. rewrite He in HR.
      destruct (D A B i (S j) <=? D A B (S i) j) eqn:Hle.
      * apply Nat.leb_le in Hle. split; [|lia]. apply inv_insert; auto. lia.
      * apply Nat.leb_gt in Hle. split; [|lia]. apply inv_delete; auto. lia.
Qed.

Lemma bt_loop_inv fuel :
  forall i j bt, bt_inv A B i j bt -> i + j <= fuel ->
  exists bt', bt_loop A B (computeLCS A B) fuel (i, j, bt) = Some (0, 0, bt')
              /\ bt_inv A B 0 0 bt'.
Proof.
  induction fuel as [|fuel IH]; intros i j bt Hinv Hf.
  - assert (i = 0) by lia; assert (j = 0) by lia; subst.
    exists bt. split; [reflexivity | exact Hinv].
  - destruct (bt_guard (i, j, bt)) eqn:Hg.
    + pose proof (inv_step i j bt Hinv Hg) as Hs.
      cbn [bt_loop]. rewrite Hg.
      destruct (bt_step A B (computeLCS A B) (i, j, bt)) as [[i' j'] bt'] eqn:E.
      destruct Hs as [Hinv' Hlt]. apply IH; auto. lia.
    + cbn [bt_loop]. rewrite Hg. simpl in Hg.
      destruct i; [|discriminate]. destruct j; [|discriminate].
      exists bt. split; [reflexivity | exact Hinv].
Qed.

Lemma diff_changes_inv :
  exists bt, bt_loop A B (computeLCS A B) (List.length A + List.length B)
               (List.length A, List.length B, []) = Some (0, 0, bt)
             /\ diff_changes A B = rev bt /\ bt_inv A B 0 0 bt.
Proof.
  destruct (bt_loop_inv (List.length A + List.length B) (List.length A) (List.length B) [])
    as [bt [E Hinv]].
  - unfold bt_inv. rewrite !firstn_all. simpl. rewrite !app_nil_r. repeat split; lia.
  - lia.
  - exists bt. unfold diff_changes. rewrite E. auto.
Qed.

Lemma diff_changes_spec :
  projA (diff_changes A B) = A /\ projB (diff_changes A B) = B /\
  n_of CEqual (diff_changes A B) = D A B (List.length A) (List.length B).
Proof.
  destruct diff_changes_inv as [bt [_ [E (_ & _ & HA & HB & HD)]]].
  rewrite E. simpl in HA, HB. rewrite D_0_l in HD. rewrite n_of_rev.
  repeat split; auto. lia.
Qed.

End Inv.

(** Any alignment has at most [L X Y] [Equal] records. *)
Lemma alignment_equal_bound al :
  forall X Y, projA al = X -> projB al = Y -> n_of CEqual al <= L X Y.
Proof.
  induction al as [|x al IH]; intros X Y HX HY; simpl; [lia|].
  simpl in HX, HY. destruct (type x) eqn:Ht; subst X Y.
  - rewrite L_rec, String.eqb_refl. specialize (IH _ _ eq_refl eq_refl). lia.
  - specialize (IH _ _ eq_refl eq_refl). pose proof (L_mono_l (text x) (projA al) (projB al)). lia.
  - specialize (IH _ _ eq_refl eq_refl). pose proof (L_mono_r (text x) (projA al) (projB al)). lia.
Qed.

End Backtrack.

Module Grouping.

Lemma n_prefixed_app ch l1 l2 : n_prefixed ch (l1 ++ l2) = n_prefixed ch l1 + n_prefixed ch l2.
Proof. unfold n_prefixed. rewrite filter_app, length_app. reflexivity. Qed.

Lemma n_prefixed_ctx ch l : ch <> " "%char -> all_ctx l -> n_prefixed ch l = 0.
Proof.
  intros Hch H. induction H as [|s l Hs _ IH]; [reflexivity|].
  unfold n_prefixed in *. simpl. rewrite Hs.
  destruct (Ascii.eqb " " ch) eqn:E; [apply Ascii.eqb_eq in E; congruence | exact IH].
Qed.

Lemma hunk_body_app h1 h2 : hunk_body (h1 ++ h2) = hunk_body h1 ++ hunk_body h2.
Proof. unfold hunk_body. apply flat_map_app. Qed.

Lemma all_ctx_app l1 l2 : all_ctx l1 -> all_ctx l2 -> all_ctx (l1 ++ l2).
Proof. intros H1 H2. apply Forall_app. auto. Qed.

Lemma trailing_ctx c l k : all_ctx (trailing c l k).
Proof.
  revert k; induction l as [|x l IH]; intros k; simpl; [constructor|].
  destruct (k <? c); [|constructor]. destruct (is_equal x); [|apply IH].
  constructor; [reflexivity | apply IH].
Qed.

Lemma leading_ctx c l k acc :
  exists ctx, all_ctx ctx /\ fst (leading c l k acc) = ctx ++ acc.
Proof.
  revert k acc; induction l as [|x l IH]; intros k acc; simpl.
  - exists []. split; [constructor | reflexivity].
  - destruct (k <? c); [destruct (is_equal x)|].
    + destruct (IH (S k) (ctx_line x :: acc)) as [ctx [Hc E]]. rewrite E.
      exists (ctx ++ [ctx_line x]). rewrite <- app_assoc. split; [|reflexivity].
      apply all_ctx_app; auto. repeat constructor.
    + exists []. split; [constructor | reflexivity].
    + exists []. split; [constructor | reflexivity].
Qed.

Lemma gap_ctx l : all_ctx (gap_lines l).
Proof.
  unfold gap_lines. induction (filter is_equal l) as [|y l' IH]; simpl; constructor;
  [reflexivity | exact IH].
Qed.

Lemma close_hunk_lines changes c st :
  exists tr, all_ctx tr /\ all_lines (close_hunk changes c st) = all_lines st ++ tr
             /\ hunkLines (close_hunk changes c st) = [].
Proof.
  eexists. split; [apply trailing_ctx|]. split; [|reflexivity].
  unfold all_lines, close_hunk. simpl. rewrite hunk_body_app. simpl.
  rewrite !app_nil_r, app_assoc. reflexivity.
Qed.

Definition change_line (x : change) : string :=
  match type x with CDelete => del_line x | _ => ins_line x end.

Lemma group_step_lines changes c idx x st :
  is_equal x = false ->
  exists ctx, all_ctx ctx /\
    all_lines (group_step changes c idx x st) = all_lines st ++ ctx ++ [change_line x].
Proof.
  intros Hx. unfold group_step, push_change, open_or_fill, pre_close. rewrite Hx.
  set (far := (Z.of_nat idx - lastChangeIdx st >? Z.of_nat c * 2 + 1)%Z).
  set (st1 := if far && (List.length (hunks st) =? 0) && (List.length (hunkLines st) =? 0)
                 && (lastChangeIdx st <? 0)%Z then st
              else if far && (0 <? List.length (hunkLines st)) then close_hunk changes c st
              else st).
  assert (H1 : exists tr, all_ctx tr /\ all_lines st1 = all_lines st ++ tr).
  { subst st1. destruct (_ && _ && _ && _); [exists []; split; [constructor | rewrite app_nil_r; reflexivity]|].
    destruct (_ && _); [|exists []; split; [constructor | rewrite app_nil_r; reflexivity]].
    destruct (close_hunk_lines changes c st) as [tr [Htr [E _]]]. eauto. }
  destruct H1 as [tr [Htr E1]].
  destruct (List.length (hunkLines st1) =? 0) eqn:Hlen.
  - apply Nat.eqb_eq, length_zero_iff_nil in Hlen.
    destruct (leading c (rev (firstn idx changes)) 0 (hunkLines st1)) as [lead cc] eqn:El.
    destruct (leading_ctx c (rev (firstn idx changes)) 0 (hunkLines st1)) as [ctx [Hc Ec]].
    rewrite El in Ec. simpl in Ec. rewrite Hlen, app_nil_r in Ec. subst lead.
    exists (tr ++ ctx). split; [apply all_ctx_app; auto|].
    unfold all_lines in *. rewrite Hlen, app_nil_r in E1.
    unfold change_line. destruct (type x); simpl; rewrite E1, <- !app_assoc; reflexivity.
  - exists (tr ++ gap_lines (firstn (idx - Z.to_nat (lastChangeIdx st1 + 1))
                                (skipn (Z.to_nat (lastChangeIdx st1 + 1)) changes))).
    split; [apply all_ctx_app; auto; apply gap_ctx|].
    unfold all_lines in *.
    unfold change_line. destruct (type x); simpl; rewrite <- !app_assoc;
      rewrite (app_assoc (hunk_body (hunks st1))), E1, <- !app_assoc; reflexivity.
Qed.

Lemma group_step_equal changes c idx x st :
  is_equal x = true -> group_step changes c idx x st = st.
Proof. intros Hx. unfold group_step. rewrite Hx. reflexivity. Qed.

Lemma change_line_counts x :
  is_equal x = false ->
  n_prefixed "+" [change_line x] = n_of CInsert [x] /\
  n_prefixed "-" [change_line x] = n_of CDelete [x].
Proof.
  unfold is_equal, change_line, n_prefixed. simpl. destruct (type x); simpl; try discriminate; auto.
Qed.

Lemma group_from_counts changes c l :
  forall idx st,
  n_prefixed "+" (all_lines (group_from changes c idx l st))
    = n_prefixed "+" (all_lines st) + n_of CInsert l /\
  n_prefixed "-" (all_lines (group_from changes c idx l st))
    = n_prefixed "-" (all_lines st) + n_of CDelete l.
Proof.
  induction l as [|x l IH]; intros idx st; simpl; [lia|].
  destruct (IH (S idx) (group_step changes c idx x st)) as [IH1 IH2].
  rewrite IH1, IH2.
  destruct (is_equal x) eqn:Hx.
  - rewrite group_step_equal by exact Hx.
    unfold is_equal in Hx. destruct (type x); try discriminate. simpl. lia.
  - destruct (group_step_lines changes c idx x st Hx) as [ctx [Hc E]]. rewrite E.
    destruct (change_line_counts x Hx) as [C1 C2].
    rewrite !n_prefixed_app, !(n_prefixed_ctx _ ctx) by (auto; discriminate).
    simpl in C1, C2. rewrite C1, C2. lia.
Qed.

Lemma group_lines changes c :
  exists tr, all_ctx tr /\
    hunk_body (hunks (group changes c))
    = all_lines (group_from changes c 0 changes init_st) ++ tr.
Proof.
  unfold group.
  destruct (0 <? List.length (hunkLines (group_from changes c 0 changes init_st))) eqn:E.
  - destruct (close_hunk_lines changes c (group_from changes c 0 changes init_st))
      as [tr [Htr [E1 E2]]].
    exists tr. split; auto. rewrite <- E1. unfold all_lines. rewrite E2, app_nil_r. reflexivity.
  - exists []. split; [constructor|]. apply Nat.ltb_ge in E.
    unfold all_lines. destruct (hunkLines _); simpl in E; [|lia].
    rewrite !app_nil_r. reflexivity.
Qed.

(** Every [Insert] record yields one ['+'] line and every [Delete] record one
    ['-'] line of the hunks; context lines start with a space. *)
Lemma group_counts changes c :
  n_prefixed "+" (hunk_body (hunks (group changes c))) = n_of CInsert changes /\
  n_prefixed "-" (hunk_body (hunks (group changes c))) = n_of CDelete changes.
Proof.
  destruct (group_lines changes c) as [tr [Htr E]]. rewrite E.
  destruct (group_from_counts changes c changes 0 init_st) as [C1 C2].
  rewrite !n_prefixed_app, C1, C2, !(n_prefixed_ctx _ tr) by (auto; discriminate).
  simpl. lia.
Qed.

Lemma group_from_all_equal changes c l :
  forall idx st, forallb is_equal l = true -> group_from changes c idx l st = st.
Proof.
  induction l as [|x l IH]; intros idx st H; simpl in *; [reflexivity|].
  apply andb_prop in H as [H1 H2]. rewrite group_step_equal by exact H1. auto.
Qed.

End Grouping.

Module DiffFacts.
Import LcsFacts Backtrack Grouping.

Lemma L_refl X : L X X = List.length X.
Proof. induction X as [|x X IH]; [reflexivity|]. rewrite L_rec, String.eqb_refl, IH. reflexivity. Qed.

Lemma D_full A B : D A B (List.length A) (List.length B) = L (rev A) (rev B).
Proof. unfold D. rewrite !firstn_all. reflexivity. Qed.

Lemma length_n_of l : List.length l = n_of CEqual l + n_of CDelete l + n_of CInsert l.
Proof. induction l as [|x l IH]; simpl; [reflexivity|]. destruct (type x); simpl; lia. Qed.

Lemma diff_counts A B :
  n_of CEqual (diff_changes A B) = L (rev A) (rev B) /\
  n_of CDelete (diff_changes A B) = List.length A - L (rev A) (rev B) /\
  n_of CInsert (diff_changes A B) = List.length B - L (rev A) (rev B) /\
  L (rev A) (rev B) <= List.length A /\ L (rev A) (rev B) <= List.length B.
Proof.
  destruct (diff_changes_spec A B) as (HA & HB & HE).
  rewrite D_full in HE.
  pose proof (length_projA (diff_changes A B)) as LA. rewrite HA in LA.
  pose proof (length_projB (diff_changes A B)) as LB. rewrite HB in LB.
  lia.
Qed.

Lemma no_change_all_equal l :
  n_of CInsert l + n_of CDelete l = 0 -> forallb is_equal l = true.
Proof.
  induction l as [|x l IH]; simpl; [reflexivity|].
  unfold is_equal. destruct (type x); simpl; intros H; [apply IH; lia | lia | lia].
Qed.

Lemma all_equal_proj l : forallb is_equal l = true -> projA l = projB l.
Proof.
  induction l as [|x l IH]; simpl; [reflexivity|].
  unfold is_equal. destruct (type x); simpl; intros H; [rewrite IH; auto | discriminate | discriminate].
Qed.

Lemma group_all_equal changes c : forallb is_equal changes = true -> hunks (group changes c) = [].
Proof.
  intros H. unfold group. rewrite group_from_all_equal by exact H. reflexivity.
Qed.

Lemma render_nonempty hs fa fb : hs <> [] -> render hs fa fb <> "".
Proof. destruct hs; [congruence|]. intros _. simpl. discriminate. Qed.

End DiffFacts.

Module Hunks.
Import Grouping.

Lemma firstn_S_nth {T} (l : list T) d i :
  i < List.length l -> firstn (S i) l = firstn i l ++ [nth i l d].
Proof.
  revert i; induction l as [|a l IH]; intros i Hi; simpl in Hi; [lia|].
  destruct i; [reflexivity|].
  change (firstn (S (S i)) (a :: l)) with (a :: firstn (S i) l).
  rewrite IH by lia. reflexivity.
Qed.

Lemma group_from_app changes c l1 :
  forall l2 idx st,
  group_from changes c idx (l1 ++ l2) st
  = group_from changes c (idx + List.length l1) l2 (group_from changes c idx l1 st).
Proof.
  induction l1 as [|x l1 IH]; intros l2 idx st; simpl; [rewrite Nat.add_0_r; reflexivity|].
  rewrite IH. rewrite Nat.add_succ_r. reflexivity.
Qed.

Lemma state_after_S changes c p :
  p < List.length changes ->
  state_after changes c (S p) = group_step changes c p (chg_at changes p) (state_after changes c p).
Proof.
  intros Hp. unfold state_after, chg_at.
  rewrite (firstn_S_nth changes dflt_change p Hp), group_from_app.
  rewrite length_firstn, Nat.min_l by lia. reflexivity.
Qed.

Lemma state_after_equal_run changes c :
  forall k n, n + k <= List.length changes ->
  (forall q, n <= q < n + k -> is_equal (chg_at changes q) = true) ->
  state_after changes c (n + k) = state_after changes c n.
Proof.
  induction k as [|k IH]; intros n Hk Heq; [rewrite Nat.add_0_r; reflexivity|].
  rewrite Nat.add_succ_r, state_after_S by lia.
  rewrite group_step_equal by (apply Heq; lia).
  apply IH; [lia|]. intros q Hq. apply Heq. lia.
Qed.

Lemma state_after_full changes c :
  state_after changes c (List.length changes) = group_from changes c 0 changes init_st.
Proof. unfold state_after. rewrite firstn_all. reflexivity. Qed.

Lemma push_change_fields idx x st :
  hunks (push_change idx x st) = hunks st /\
  hunkLines (push_change idx x st) = hunkLines st ++ [change_line x] /\
  lastChangeIdx (push_change idx x st) = Z.of_nat idx.
Proof. unfold push_change, change_line. destruct (type x); simpl; auto. Qed.

Lemma open_or_fill_hunks changes c idx x st :
  hunks (open_or_fill changes c idx x st) = hunks st.
Proof.
  unfold open_or_fill. destruct (_ =? 0); [|reflexivity].
  destruct (leading _ _ _ _). reflexivity.
Qed.

Lemma open_or_fill_open changes c idx x st :
  hunkLines st = [] ->
  hunkLines (open_or_fill changes c idx x st) = fst (leading c (rev (firstn idx changes)) 0 []).
Proof.
  intros H. unfold open_or_fill. rewrite H. simpl.
  destruct (leading _ _ _ _). reflexivity.
Qed.

Lemma open_or_fill_fill changes c idx x st :
  hunkLines st <> [] ->
  exists g, hunkLines (open_or_fill changes c idx x st) = hunkLines st ++ g.
Proof.
  intros H. unfold open_or_fill.
  destruct (hunkLines st) eqn:E; [congruence|]. simpl. eauto.
Qed.

Lemma close_hunk_fields changes c st :
  hunks (close_hunk changes c st)
  = hunks st ++ [mkHunk (hunkStartA st)
                   (hunkCountA st + Z.of_nat (List.length
                      (trailing c (skipn (Z.to_nat (lastChangeIdx st + 1)) changes) 0)))
                   (hunkStartB st)
                   (hunkCountB st + Z.of_nat (List.length
                      (trailing c (skipn (Z.to_nat (lastChangeIdx st + 1)) changes) 0)))
                   (hunkLines st ++ trailing c (skipn (Z.to_nat (lastChangeIdx st + 1)) changes) 0)]
  /\ hunkLines (close_hunk changes c st) = [].
Proof. split; reflexivity. Qed.

Lemma pre_close_cases changes c idx st :
  pre_close changes c idx st = st \/ pre_close changes c idx st = close_hunk changes c st.
Proof.
  unfold pre_close. destruct (_ && _ && _ && _); [auto|]. destruct (_ && _); auto.
Qed.

Lemma pre_close_empty changes c idx st :
  hunkLines st = [] -> pre_close changes c idx st = st.
Proof.
  intros H. unfold pre_close. rewrite H. simpl.
  destruct (_ && _ && _ && _); [reflexivity|]. rewrite andb_false_r. reflexivity.
Qed.

Lemma pre_close_far changes c idx st :
  hunkLines st <> [] ->
  (Z.of_nat idx - lastChangeIdx st >? Z.of_nat c * 2 + 1)%Z = true ->
  pre_close changes c idx st = close_hunk changes c st.
Proof.
  intros H Hf. unfold pre_close. rewrite Hf.
  destruct (hunkLines st) eqn:E; [congruence|]. simpl. rewrite andb_false_r. reflexivity.
Qed.

Lemma pre_close_near changes c idx st :
  (Z.of_nat idx - lastChangeIdx st >? Z.of_nat c * 2 + 1)%Z = false ->
  pre_close changes c idx st = st.
Proof. intros Hf. unfold pre_close. rewrite Hf. reflexivity. Qed.

Lemma step_change changes c idx x st :
  is_equal x = false ->
  lastChangeIdx (group_step changes c idx x st) = Z.of_nat idx /\
  exists pre, hunkLines (group_step changes c idx x st) = pre ++ [change_line x].
Proof.
  intros Hx. unfold group_step. rewrite Hx.
  destruct (push_change_fields idx x (open_or_fill changes c idx x (pre_close changes c idx st)))
    as (_ & E & L).
  rewrite E, L. eauto.
Qed.

Lemma change_line_not_ctx x : is_equal x = false -> is_ctx_line (change_line x) = false.
Proof. unfold is_equal, change_line. destruct (type x); simpl; auto. Qed.

Section Gaps.
Variables (changes : list change) (c : nat).

(** Between two changes at [i1 < i2] with only [Equal] records in between:
    the state before [i2] is the state after [i1], which has
    [lastChangeIdx = i1] and an open hunk. *)
Lemma gap_state i1 i2 :
  i1 < i2 -> i2 < List.length changes ->
  is_equal (chg_at changes i1) = false ->
  (forall k, i1 < k < i2 -> is_equal (chg_at changes k) = true) ->
  state_after changes c i2 = state_after changes c (S i1) /\
  lastChangeIdx (state_after changes c (S i1)) = Z.of_nat i1 /\
  hunkLines (state_after changes c (S i1)) <> [].
Proof.
  intros H12 H2 Hx1 Hbetween.
  split.
  - replace i2 with (S i1 + (i2 - S i1)) by lia.
    apply state_after_equal_run; [lia|]. intros q Hq. apply Hbetween. lia.
  - rewrite state_after_S by lia.
    destruct (step_change changes c i1 (chg_at changes i1) (state_after changes c i1) Hx1)
      as [E [pre Epre]].
    split; [exact E|]. rewrite Epre. destruct pre; discriminate.
Qed.

Lemma gap_hunks i1 i2 :
  i1 < i2 -> i2 < List.length changes ->
  is_equal (chg_at changes i1) = false -> is_equal (chg_at changes i2) = false ->
  (forall k, i1 < k < i2 -> is_equal (chg_at changes k) = true) ->
  (i2 - i1 - 1 <= 2 * c ->
   hunks (state_after changes c (S i2)) = hunks (state_after changes c (S i1))) /\
  (2 * c < i2 - i1 - 1 ->
   hunks (state_after changes c (S i2))
     = hunks (close_hunk changes c (state_after changes c (S i1))) /\
   hunkLines (state_after changes c (S i2))
     = fst (leading c (rev (firstn i2 changes)) 0 []) ++ [change_line (chg_at changes i2)]).
Proof.
  intros H12 H2 Hx1 Hx2 Hbetween.
  destruct (gap_state i1 i2 H12 H2 Hx1 Hbetween) as (E & Hlast & Hne).
  rewrite state_after_S, E by lia. unfold group_step. rewrite Hx2.
  set (st := state_after changes c (S i1)) in *.
  destruct (push_change_fields i2 (chg_at changes i2)
              (open_or_fill changes c i2 (chg_at changes i2) (pre_close changes c i2 st)))
    as (Eh & El & _).
  rewrite Eh, El, open_or_fill_hunks. split; intros Hg.
  - rewrite pre_close_near; [reflexivity|].
    rewrite Hlast, Z.gtb_ltb. apply Z.ltb_ge. lia.
  - rewrite pre_close_far; [| exact Hne | rewrite Hlast; apply Z.gtb_lt; lia].
    split; [reflexivity|].
    rewrite open_or_fill_open by reflexivity. reflexivity.
Qed.

(** The first change of the list opens a hunk from the initial state. *)
Lemma first_change p :
  p < List.length changes ->
  is_equal (chg_at changes p) = false ->
  (forall q, q < p -> is_equal (chg_at changes q) = true) ->
  state_after changes c p = init_st /\
  hunkLines (state_after changes c (S p))
    = fst (leading c (rev (firstn p changes)) 0 []) ++ [change_line (chg_at changes p)].
Proof.
  intros Hp Hx Hbefore.
  assert (E : state_after changes c p = init_st).
  { change p with (0 + p). rewrite state_after_equal_run; [reflexivity | lia |].
    intros q Hq. apply Hbefore. lia. }
  split; [exact E|].
  rewrite state_after_S, E by lia. unfold group_step. rewrite Hx.
  destruct (push_change_fields p (chg_at changes p)
              (open_or_fill changes c p (chg_at changes p) (pre_close changes c p init_st)))
    as (_ & El & _).
  rewrite El, pre_close_empty, open_or_fill_open by reflexivity. reflexivity.
Qed.

(** Later states of the loop extend earlier ones. *)
Lemma extends_refl st : extends st st.
Proof.
  exists []. rewrite app_nil_r. split; [reflexivity|].
  intros _. left. split; [reflexivity|]. exists []. rewrite app_nil_r. reflexivity.
Qed.

Lemma extends_close st0 st : extends st0 st -> extends st0 (close_hunk changes c st).
Proof.
  intros [tl [Eh Hl]]. destruct (close_hunk_fields changes c st) as [Ec _].
  unfold extends. rewrite Ec, Eh, <- app_assoc. eexists; split; [reflexivity|].
  intros Hne. right. destruct (Hl Hne) as [[-> [more Em]] | (h & rest & more & -> & Eh')].
  - simpl. do 3 eexists. split; [reflexivity|]. simpl. rewrite Em, <- app_assoc. reflexivity.
  - do 3 eexists. split; [reflexivity | exact Eh'].
Qed.

Lemma extends_step st0 st idx x :
  extends st0 st -> extends st0 (group_step changes c idx x st).
Proof.
  intros Hext. unfold group_step. destruct (is_equal x) eqn:Hx; [exact Hext|].
  unfold extends.
  destruct (push_change_fields idx x (open_or_fill changes c idx x (pre_close changes c idx st)))
    as (Eh & El & _).
  destruct (pre_close_cases changes c idx st) as [Ep | Ep]; rewrite Ep in Eh, El |- *.
  - destruct Hext as [tl [Eh0 Hl]]. exists tl. rewrite Eh, open_or_fill_hunks.
    split; [exact Eh0|]. intros Hne.
    destruct (Hl Hne) as [[-> [more Em]] | Hr]; [|right; exact Hr].
    left. split; [reflexivity|].
    assert (Hst : hunkLines st <> []) by (rewrite Em; destruct (hunkLines st0); [congruence | discriminate]).
    destruct (open_or_fill_fill changes c idx x st Hst) as [g Eg].
    rewrite El, Eg, Em, <- !app_assoc. eauto.
  - pose proof (extends_close st0 st Hext) as [tl [Eh0 Hl]].
    exists tl. rewrite Eh, open_or_fill_hunks. split; [exact Eh0|].
    intros Hne. destruct (Hl Hne) as [[-> [more Em]] | Hr]; [|right; exact Hr].
    exfalso. destruct (close_hunk_fields changes c st) as [_ Ec]. rewrite Ec in Em.
    destruct (hunkLines st0); [congruence | discriminate].
Qed.

Lemma extends_group_from st0 l :
  forall idx st, extends st0 st -> extends st0 (group_from changes c idx l st).
Proof.
  induction l as [|x l IH]; intros idx st H; simpl; [exact H|].
  apply IH, extends_step, H.
Qed.

Lemma group_split n :
  n <= List.length changes ->
  group_from changes c 0 changes init_st
  = group_from changes c n (skipn n changes) (state_after changes c n).
Proof.
  intros Hn. unfold state_after.
  rewrite <- (firstn_skipn n changes) at 2. rewrite group_from_app.
  rewrite length_firstn, Nat.min_l by lia. reflexivity.
Qed.

Lemma extends_group n :
  n <= List.length changes -> extends (state_after changes c n) (group changes c).
Proof.
  intros Hn. unfold group. rewrite (group_split n Hn).
  pose proof (extends_group_from (state_after changes c n) (skipn n changes) n
                (state_after changes c n) (extends_refl _)) as H.
  destruct (0 <? _); [apply extends_close|]; exact H.
Qed.

Lemma group_lines_empty : hunkLines (group changes c) = [].
Proof.
  unfold group. destruct (0 <? List.length _) eqn:E; [reflexivity|].
  apply Nat.ltb_ge in E. destruct (hunkLines _); simpl in E; [reflexivity | lia].
Qed.

(** The hunk that receives the change at [p] sits at index [hunk_of p] of
    the final list, and its lines start with the open hunk's lines after
    [p]. *)
Lemma hunk_of_lines p :
  p < List.length changes -> is_equal (chg_at changes p) = false ->
  exists more, lines (nth (hunk_of changes c p) (hunks (group changes c)) dflt_hunk)
               = hunkLines (state_after changes c (S p)) ++ more.
Proof.
  intros Hp Hx.
  assert (Hne : hunkLines (state_after changes c (S p)) <> []).
  { rewrite state_after_S by exact Hp.
    destruct (step_change changes c p _ (state_after changes c p) Hx) as [_ [pre E]].
    rewrite E. destruct pre; discriminate. }
  destruct (extends_group (S p) ltac:(lia)) as [tl [Eh Hl]].
  destruct (Hl Hne) as [[-> [more Em]] | (h & rest & more & -> & Eh')].
  - rewrite group_lines_empty in Em. exfalso.
    destruct (hunkLines (state_after changes c (S p))); [congruence | discriminate].
  - exists more. unfold hunk_of. rewrite Eh, nth_middle. exact Eh'.
Qed.

(** Runs of [Equal] records, the context scans, and context-line prefixes. *)
Lemma eq_run_pos l :
  forall k, k <= List.length l ->
  (forall q, q < k -> is_equal (nth q l dflt_change) = true) ->
  (k = List.length l \/ is_equal (nth k l dflt_change) = false) ->
  eq_run l = k.
Proof.
  induction l as [|x l IH]; intros k Hk Hb He; simpl in *; [lia|].
  destruct k as [|k].
  - destruct He as [He | He]; [lia|]. rewrite He. reflexivity.
  - rewrite (Hb 0 ltac:(lia)). f_equal. apply IH; [lia | |].
    + intros q Hq. apply (Hb (S q)). lia.
    + destruct He as [He | He]; [left; lia | right; exact He].
Qed.

Lemma leading_len l :
  forall k acc, k <= c ->
  exists ctx, all_ctx ctx /\ leading c l k acc = (ctx ++ acc, k + List.length ctx)
              /\ List.length ctx = Nat.min (c - k) (eq_run l).
Proof.
  induction l as [|x l IH]; intros k acc Hk; simpl.
  - exists []. split; [constructor|]. split; [rewrite Nat.add_0_r; reflexivity | simpl; lia].
  - destruct (k <? c) eqn:Hkc.
    + apply Nat.ltb_lt in Hkc. destruct (is_equal x).
      * destruct (IH (S k) (ctx_line x :: acc) ltac:(lia)) as (ctx & Hc & E & Hl).
        exists (ctx ++ [ctx_line x]). rewrite <- app_assoc. simpl. rewrite E.
        split; [apply all_ctx_app; [exact Hc | repeat constructor]|].
        rewrite length_app. simpl. split; [f_equal; lia | lia].
      * exists []. split; [constructor|]. split; [rewrite Nat.add_0_r; reflexivity | simpl; lia].
    + apply Nat.ltb_ge in Hkc.
      exists []. split; [constructor|]. split; [rewrite Nat.add_0_r; reflexivity | simpl; lia].
Qed.

Lemma trailing_len l :
  forall k, k <= c -> (c - k <= eq_run l \/ eq_run l = List.length l) ->
  List.length (trailing c l k) = Nat.min (c - k) (eq_run l).
Proof.
  induction l as [|x l IH]; intros k Hk Hcond; simpl in *; [lia|].
  destruct (k <? c) eqn:Hkc.
  - apply Nat.ltb_lt in Hkc. destruct (is_equal x).
    + simpl. rewrite IH by lia. lia.
    + lia.
  - apply Nat.ltb_ge in Hkc. simpl. lia.
Qed.

Lemma ctx_prefix_app l1 s l2 :
  all_ctx l1 -> is_ctx_line s = false -> ctx_prefix_len (l1 ++ s :: l2) = List.length l1.
Proof.
  intros H Hs. induction H as [|t l1 Ht _ IH]; simpl; [rewrite Hs; reflexivity|].
  unfold is_ctx_line at 1. rewrite Ht. simpl. rewrite IH. reflexivity.
Qed.

Lemma last_before (f : nat -> bool) a :
  forall b, (forall k, a <= k < b -> f k = true) \/
            exists r, a <= r < b /\ f r = false /\ forall k, r < k < b -> f k = true.
Proof.
  induction b as [|b IH]; [left; intros; lia|].
  destruct (Nat.lt_ge_cases b a) as [Hba | Hab]; [left; intros; lia|].
  destruct (f b) eqn:Hf.
  - destruct IH as [IH | (r & Hr & Hfr & Hk)].
    + left. intros k Hk. destruct (Nat.eq_dec k b); [subst; exact Hf | apply IH; lia].
    + right. exists r. split; [lia|]. split; [exact Hfr|].
      intros k Hk'. destruct (Nat.eq_dec k b); [subst; exact Hf | apply Hk; lia].
  - right. exists b. split; [lia|]. split; [exact Hf|]. intros; lia.
Qed.

Lemma first_after (f : nat -> bool) a :
  forall b, (forall k, a <= k < b -> f k = true) \/
            exists r, a <= r < b /\ f r = false /\ forall k, a <= k < r -> f k = true.
Proof.
  induction b as [|b IH]; [left; intros; lia|].
  destruct IH as [IH | (r & Hr & Hfr & Hk)].
  - destruct (Nat.lt_ge_cases b a) as [Hba | Hab]; [left; intros; lia|].
    destruct (f b) eqn:Hf.
    + left. intros k Hk. destruct (Nat.eq_dec k b); [subst; exact Hf | apply IH; lia].
    + right. exists b. split; [lia|]. split; [exact Hf|]. intros k Hk. apply IH. lia.
  - right. exists r. split; [lia|]. auto.
Qed.

(** Leading context of the hunk that starts at the change [p]. *)
Lemma lead_general p :
  p < List.length changes -> is_equal (chg_at changes p) = false ->
  (forall q, q < p -> is_equal (chg_at changes q) = false ->
             hunk_of changes c q <> hunk_of changes c p) ->
  lead_ctx (nth (hunk_of changes c p) (hunks (group changes c)) dflt_hunk)
  = Nat.min c (eq_before changes p).
Proof.
  intros Hp Hx Hfirst.
  assert (Hopen : hunkLines (state_after changes c (S p))
                  = fst (leading c (rev (firstn p changes)) 0 []) ++ [change_line (chg_at changes p)]).
  { destruct (last_before (fun k => is_equal (chg_at changes k)) 0 p)
      as [Hall | (q & Hq & Hfq & Hbetween)].
    - apply first_change; auto. intros q Hq. apply Hall. lia.
    - destruct (gap_hunks q p ltac:(lia) Hp Hfq Hx Hbetween) as [Hnear Hfar].
      destruct (Nat.le_gt_cases (p - q - 1) (2 * c)) as [Hle | Hgt].
      + exfalso. apply (Hfirst q); [lia | exact Hfq|].
        unfold hunk_of. rewrite (Hnear Hle). reflexivity.
      + apply (Hfar Hgt). }
  destruct (hunk_of_lines p Hp Hx) as [more Em].
  unfold lead_ctx. rewrite Em, Hopen.
  destruct (leading_len (rev (firstn p changes)) 0 [] (Nat.le_0_l c)) as (ctx & Hc & E & Hl).
  rewrite E. simpl fst. rewrite app_nil_r, <- app_assoc. simpl.
  rewrite ctx_prefix_app; [| exact Hc | apply change_line_not_ctx; exact Hx].
  unfold eq_before. rewrite Hl, Nat.sub_0_r. reflexivity.
Qed.

(** Trailing context of the hunk whose last change is [p]. *)
Lemma trail_general p :
  p < List.length changes -> is_equal (chg_at changes p) = false ->
  (forall q, p < q < List.length changes -> is_equal (chg_at changes q) = false ->
             hunk_of changes c q <> hunk_of changes c p) ->
  trail_ctx (nth (hunk_of changes c p) (hunks (group changes c)) dflt_hunk)
  = Nat.min c (eq_after changes p).
Proof.
  intros Hp Hx Hlast.
  set (st := state_after changes c (S p)).
  assert (Hst : lastChangeIdx st = Z.of_nat p /\
                exists pre, hunkLines st = pre ++ [change_line (chg_at changes p)]).
  { subst st. rewrite state_after_S by exact Hp. apply step_change. exact Hx. }
  destruct Hst as [Hlst [pre Hpre]].
  set (tr := trailing c (skipn (S p) changes) 0).
  assert (Hkey : (exists tl, hunks (group changes c)
                   = hunks st ++ mkHunk (hunkStartA st)
                                   (hunkCountA st + Z.of_nat (List.length tr))
                                   (hunkStartB st)
                                   (hunkCountB st + Z.of_nat (List.length tr))
                                   (hunkLines st ++ tr) :: tl)
                 /\ (c - 0 <= eq_run (skipn (S p) changes)
                     \/ eq_run (skipn (S p) changes) = List.length (skipn (S p) changes))).
  { assert (Ec : hunks (close_hunk changes c st)
                 = hunks st ++ [mkHunk (hunkStartA st)
                                   (hunkCountA st + Z.of_nat (List.length tr))
                                   (hunkStartB st)
                                   (hunkCountB st + Z.of_nat (List.length tr))
                                   (hunkLines st ++ tr)]).
    { rewrite (proj1 (close_hunk_fields changes c st)), Hlst.
      replace (Z.to_nat (Z.of_nat p + 1)) with (S p) by lia. reflexivity. }
    destruct (first_after (fun k => is_equal (chg_at changes k)) (S p) (List.length changes))
      as [Hall | (r & Hr & Hfr & Hbetween)].
    - split.
      + exists []. unfold group. rewrite <- state_after_full.
        replace (List.length changes) with (S p + (List.length changes - S p)) by lia.
        rewrite state_after_equal_run; [| lia | intros q Hq; apply Hall; lia].
        fold st. replace (0 <? List.length (hunkLines st)) with true
          by (symmetry; apply Nat.ltb_lt; rewrite Hpre, length_app; simpl; lia).
        exact Ec.
      + right. apply eq_run_pos; [lia | | left; reflexivity].
        intros q Hq. rewrite length_skipn in Hq. rewrite nth_skipn. apply Hall. lia.
    - destruct (gap_hunks p r ltac:(lia) ltac:(lia) Hx Hfr
                  ltac:(intros k Hk; apply Hbetween; lia)) as [Hnear Hfar].
      destruct (Nat.le_gt_cases (r - p - 1) (2 * c)) as [Hle | Hgt].
      + exfalso. apply (Hlast r); [lia | exact Hfr|].
        unfold hunk_of. rewrite (Hnear Hle). reflexivity.
      + split.
        * destruct (extends_group (S r) ltac:(lia)) as [tl [Eh _]].
          exists tl. rewrite Eh, (proj1 (Hfar Hgt)). fold st. rewrite Ec, <- app_assoc.
          reflexivity.
        * left. rewrite (eq_run_pos _ (r - S p)); [lia | rewrite length_skipn; lia | |].
          -- intros q Hq. rewrite nth_skipn. apply Hbetween. lia.
          -- right. rewrite nth_skipn. replace (S p + (r - S p)) with r by lia. exact Hfr. }
  destruct Hkey as [[tl Eh] Hcond].
  unfold hunk_of. fold st. rewrite Eh, nth_middle. unfold trail_ctx. simpl.
  rewrite Hpre, rev_app_distr, rev_app_distr. simpl.
  rewrite ctx_prefix_app; [| apply Forall_rev, trailing_ctx | apply change_line_not_ctx; exact Hx].
  rewrite length_rev. subst tr. rewrite trailing_len by (auto; lia).
  unfold eq_after. rewrite Nat.sub_0_r. reflexivity.
Qed.

End Gaps.

End Hunks.

(* ------------------------------------------------------------------ *)
(** * The claims *)

Import LcsFacts Backtrack Grouping DiffFacts.

(** C1: replaying the [Equal] and [Delete] records of the change list, in
    order, yields [linesA]; replaying the [Equal] and [Insert] records yields
    [linesB]. *)
Theorem C1_reconstruction (A B : list string) :
  projA (diff_changes A B) = A /\ projB (diff_changes A B) = B.
Proof. destruct (diff_changes_spec A B) as (HA & HB & _). auto. Qed.

(** C2: the change list has [lenA + lenB - 2 * dp[lenA][lenB]] [Insert] and
    [Delete] records, and no alignment of the two sequences (a change list
    replaying to both) has fewer. *)
Theorem C2_changed_count_minimal (A B : list string) :
  n_of CInsert (diff_changes A B) + n_of CDelete (diff_changes A B)
    = List.length A + List.length B
      - 2 * get (computeLCS A B) (List.length A) (List.length B)
  /\ (forall al, projA al = A -> projB al = B ->
      n_of CInsert (diff_changes A B) + n_of CDelete (diff_changes A B)
        <= n_of CInsert al + n_of CDelete al).
Proof.
  rewrite get_ok, D_full by lia.
  destruct (diff_counts A B) as (HE & HD & HI & H1 & H2).
  split; [lia|].
  intros al HA HB.
  pose proof (alignment_equal_bound (rev al) (rev A) (rev B)) as Hb.
  rewrite projA_rev, projB_rev, HA, HB, n_of_rev in Hb.
  specialize (Hb eq_refl eq_refl).
  pose proof (length_projA al) as LA. rewrite HA in LA.
  pose proof (length_projB al) as LB. rewrite HB in LB.
  lia.
Qed.

(** C3: the report is empty exactly when the two sequences are equal, for
    every context width and labels. *)
Theorem C3_empty_iff_identical (A B : list string) (c : nat) (fa fb : string) :
  computeUnifiedDiff A B c fa fb = "" <-> A = B.
Proof.
  unfold computeUnifiedDiff, diff_hunks. split.
  - intros H.
    destruct (hunks (group (diff_changes A B) c)) eqn:Eh.
    + destruct (group_counts (diff_changes A B) c) as [C1 C2].
      rewrite Eh in C1, C2. unfold n_prefixed, hunk_body in C1, C2. simpl in C1, C2.
      pose proof (no_change_all_equal (diff_changes A B) ltac:(lia)) as Heq.
      destruct (diff_changes_spec A B) as (HA & HB & _).
      transitivity (projA (diff_changes A B)); [symmetry; exact HA|].
      rewrite all_equal_proj by exact Heq. exact HB.
    + exfalso. revert H. apply render_nonempty. discriminate.
  - intros <-.
    destruct (diff_counts A A) as (_ & HD & HI & _).
    rewrite L_refl, length_rev in HD, HI.
    rewrite group_all_equal by (apply no_change_all_equal; lia).
    reflexivity.
Qed.

(** C6: in the backtracking loop, matching lines always give an [Equal]
    record, and on a tie [dp[i][j-1] = dp[i-1][j]] between mismatching lines
    an [Insert] record is emitted. *)
Theorem C6_tie_break (A B : list string) (i j : nat) (bt : list change) :
  0 < i -> 0 < j -> i <= List.length A -> j <= List.length B ->
  (at_ A (i - 1) = at_ B (j - 1) ->
   bt_step A B (computeLCS A B) (i, j, bt)
   = (i - 1, j - 1, bt ++ [mkChange CEqual (Some (i - 1)) (Some (j - 1)) (at_ A (i - 1))]))
  /\
  (at_ A (i - 1) <> at_ B (j - 1) ->
   get (computeLCS A B) i (j - 1) = get (computeLCS A B) (i - 1) j ->
   bt_step A B (computeLCS A B) (i, j, bt)
   = (i, j - 1, bt ++ [mkChange CInsert None (Some (j - 1)) (at_ B (j - 1))])).
Proof.
  intros Hi Hj _ _. unfold bt_step.
  apply Nat.ltb_lt in Hi, Hj. rewrite Hi, Hj. simpl. split.
  - intros He. rewrite He, String.eqb_refl. reflexivity.
  - intros Hne Htie.
    destruct (String.eqb (at_ A (i - 1)) (at_ B (j - 1))) eqn:E;
      [apply String.eqb_eq in E; contradiction|].
    rewrite Htie, Nat.leb_refl, orb_true_r. reflexivity.
Qed.

Lemma C6_tie_break_witness :
  bt_step ["x"; "y"] ["y"; "x"] (computeLCS ["x"; "y"] ["y"; "x"]) (2, 2, [])
  = (2, 1, [mkChange CInsert None (Some 1) "x"]).
Proof.
  apply (proj2 (C6_tie_break ["x"; "y"] ["y"; "x"] 2 2 [] ltac:(lia) ltac:(lia)
                  ltac:(simpl; lia) ltac:(simpl; lia))).
  - simpl. discriminate.
  - vm_compute. reflexivity.
Defined.

(** C7 (as stated): the only hunk for [[] ] against [["new"]] has the
    header [@@ -0,0 +1,1 @@]. *)
Lemma C7_header_counterexample :
  map hunk_header (diff_hunks [] ["new"] 3) <> ["@@ -0,0 +1,1 @@"].
Proof. vm_compute. discriminate. Qed.

(** C7 (amended): for [[] ] against [["new"]] with three context lines there
    is one hunk, starting at index 0 of both sides, whose single line is
    [+new]; its rendered header is [@@ -1,0 +1,1 @@] since the start is
    always rendered as [startA + 1]. *)
Theorem C7_pure_insertion (fa fb : string) :
  diff_hunks [] ["new"] 3 = [mkHunk 0 0 0 1 ["+new"]] /\
  computeUnifiedDiff [] ["new"] 3 fa fb
  = String.concat nl [String.append "--- " fa; String.append "+++ " fb;
                      "@@ -1,0 +1,1 @@"; "+new"].
Proof.
  assert (E : diff_hunks [] ["new"] 3 = [mkHunk 0 0 0 1 ["+new"]])
    by (vm_compute; reflexivity).
  split; [exact E|]. unfold computeUnifiedDiff. rewrite E. reflexivity.
Qed.

(** C8 (as stated): with [A = [x; y]] and [B = [y; x]], the report of
    [diff(A, B)] deletes [x], but the report of [diff(B, A)] has no line
    [+x]: it deletes and inserts [y] instead. *)
Lemma C8_swap_counterexample :
  In "-x" (hunk_body (diff_hunks ["x"; "y"] ["y"; "x"] 3)) /\
  ~ In "+x" (hunk_body (diff_hunks ["y"; "x"] ["x"; "y"] 3)).
Proof.
  vm_compute. split.
  - left. reflexivity.
  - intros H. repeat (destruct H as [H | H]; [discriminate H|]). exact H.
Qed.

(** C8 (amended): swapping the inputs swaps the numbers of ['+'] and ['-']
    lines of the hunks (each is the number of lines of one side outside a
    longest common subsequence), for every context width. *)
Theorem C8_swap_counts (A B : list string) (c : nat) :
  n_prefixed "+" (hunk_body (diff_hunks B A c)) = n_prefixed "-" (hunk_body (diff_hunks A B c)) /\
  n_prefixed "-" (hunk_body (diff_hunks B A c)) = n_prefixed "+" (hunk_body (diff_hunks A B c)).
Proof.
  unfold diff_hunks.
  destruct (group_counts (diff_changes A B) c) as [P1 M1].
  destruct (group_counts (diff_changes B A) c) as [P2 M2].
  rewrite P1, M1, P2, M2.
  destruct (diff_counts A B) as (_ & D1 & I1 & _).
  destruct (diff_counts B A) as (_ & D2 & I2 & _).
  rewrite (L_sym (rev B) (rev A)) in D2, I2. lia.
Qed.

(** C9: the backtracking loop, given [lenA + lenB] iterations, always leaves
    through its guard ([i = j = 0]), because every iteration strictly
    decreases [i + j]; the change list then has at most [lenA + lenB]
    records, and the grouping loops run once over it (structural recursion
    in [group_from], [trailing], [leading], [gap_lines]). *)
Theorem C9_termination (A B : list string) :
  (exists bt, bt_loop A B (computeLCS A B) (List.length A + List.length B)
                (List.length A, List.length B, []) = Some (0, 0, bt)
              /\ diff_changes A B = rev bt)
  /\ (forall st, bt_guard st = true ->
      bt_measure (bt_step A B (computeLCS A B) st) < bt_measure st)
  /\ List.length (diff_changes A B) <= List.length A + List.length B.
Proof.
  split; [|split].
  - destruct (diff_changes_inv A B) as [bt [E1 [E2 _]]]. eauto.
  - intros [[i j] bt] Hg. unfold bt_step.
    destruct i as [|i]; destruct j as [|j]; simpl in Hg; try discriminate; simpl; [lia | lia |].
    destruct (String.eqb _ _); simpl; [lia|].
    destruct (_ <=? _); simpl; lia.
  - rewrite length_n_of. destruct (diff_counts A B) as (HE & HD & HI & H1 & H2). lia.
Qed.

Lemma C9_termination_witness :
  bt_measure (bt_step ["a"] ["b"] (computeLCS ["a"] ["b"]) (1, 1, [])) < bt_measure (1, 1, []).
Proof.
  apply (proj1 (proj2 (C9_termination ["a"] ["b"]))). reflexivity.
Defined.

Lemma C2_changed_count_minimal_witness :
  n_of CInsert (diff_changes ["x"; "y"] ["y"; "x"]) + n_of CDelete (diff_changes ["x"; "y"] ["y"; "x"])
  <= n_of CInsert [mkChange CDelete None None "x"; mkChange CDelete None None "y";
                   mkChange CInsert None None "y"; mkChange CInsert None None "x"]
     + n_of CDelete [mkChange CDelete None None "x"; mkChange CDelete None None "y";
                     mkChange CInsert None None "y"; mkChange CInsert None None "x"].
Proof.
  apply (proj2 (C2_changed_count_minimal ["x"; "y"] ["y"; "x"])); reflexivity.
Defined.

(** C4: two clusters of changes, the last change of the first at [i1] and
    the first change of the second at [i2] with [g = i2 - i1 - 1] [Equal]
    records between them, land in the same hunk exactly when
    [g <= 2 * contextLines]; with [contextLines = 3], a gap of 6 unchanged
    lines gives one hunk and a gap of 7 gives two. *)
Theorem C4_merge_threshold :
  (forall (changes : list change) (c i1 i2 : nat),
     i1 < i2 -> i2 < List.length changes ->
     is_equal (chg_at changes i1) = false -> is_equal (chg_at changes i2) = false ->
     (forall k, i1 < k < i2 -> is_equal (chg_at changes k) = true) ->
     (hunk_of changes c i1 = hunk_of changes c i2 <-> i2 - i1 - 1 <= 2 * c))
  /\ List.length (diff_hunks ["x"; "1"; "2"; "3"; "4"; "5"; "6"; "y"]
                             ["X"; "1"; "2"; "3"; "4"; "5"; "6"; "Y"] 3) = 1
  /\ List.length (diff_hunks ["x"; "1"; "2"; "3"; "4"; "5"; "6"; "7"; "y"]
                             ["X"; "1"; "2"; "3"; "4"; "5"; "6"; "7"; "Y"] 3) = 2.
Proof.
  split; [|split; vm_compute; reflexivity].
  intros changes c i1 i2 H12 H2 Hx1 Hx2 Hbetween.
  destruct (Hunks.gap_hunks changes c i1 i2 H12 H2 Hx1 Hx2 Hbetween) as [Hnear Hfar].
  unfold hunk_of. split; intros H.
  - destruct (Nat.le_gt_cases (i2 - i1 - 1) (2 * c)) as [Hle | Hgt]; [exact Hle|].
    exfalso. rewrite (proj1 (Hfar Hgt)), (proj1 (Hunks.close_hunk_fields _ _ _)), length_app in H.
    simpl in H. lia.
  - rewrite (Hnear H). reflexivity.
Qed.

Lemma C4_merge_threshold_witness :
  (hunk_of (diff_changes ["x"; "1"; "y"] ["X"; "1"; "Y"]) 0 1 =
   hunk_of (diff_changes ["x"; "1"; "y"] ["X"; "1"; "Y"]) 0 3) <-> 3 - 1 - 1 <= 2 * 0.
Proof.
  apply (proj1 C4_merge_threshold); [lia | vm_compute; lia | vm_compute; reflexivity
        | vm_compute; reflexivity |].
  intros k Hk. assert (k = 2) by lia. subst k. vm_compute. reflexivity.
Defined.

(** C5: in the hunks of [computeUnifiedDiff A B contextLines], the hunk
    holding the change at [p] begins with [min contextLines (eq_before p)]
    context lines when [p] is its first change, and ends with
    [min contextLines (eq_after p)] context lines when [p] is its last
    change. *)
Theorem C5_context_bounds (A B : list string) (c p : nat) :
  p < List.length (diff_changes A B) ->
  is_equal (chg_at (diff_changes A B) p) = false ->
  ((forall q, q < p -> is_equal (chg_at (diff_changes A B) q) = false ->
              hunk_of (diff_changes A B) c q <> hunk_of (diff_changes A B) c p) ->
   lead_ctx (nth (hunk_of (diff_changes A B) c p) (diff_hunks A B c) dflt_hunk)
   = Nat.min c (eq_before (diff_changes A B) p))
  /\
  ((forall q, p < q < List.length (diff_changes A B) ->
              is_equal (chg_at (diff_changes A B) q) = false ->
              hunk_of (diff_changes A B) c q <> hunk_of (diff_changes A B) c p) ->
   trail_ctx (nth (hunk_of (diff_changes A B) c p) (diff_hunks A B c) dflt_hunk)
   = Nat.min c (eq_after (diff_changes A B) p)).
Proof.
  intros Hp Hx. unfold diff_hunks. split.
  - apply Hunks.lead_general; assumption.
  - apply Hunks.trail_general; assumption.
Qed.

Lemma C5_context_bounds_witness :
  lead_ctx (nth (hunk_of (diff_changes ["a"; "b"; "c"] ["a"; "x"; "c"]) 3 1)
                (diff_hunks ["a"; "b"; "c"] ["a"; "x"; "c"] 3) dflt_hunk)
  = Nat.min 3 (eq_before (diff_changes ["a"; "b"; "c"] ["a"; "x"; "c"]) 1).
Proof.
  apply (proj1 (C5_context_bounds ["a"; "b"; "c"] ["a"; "x"; "c"] 3 1
                  ltac:(vm_compute; lia) ltac:(vm_compute; reflexivity))).
  intros q Hq. assert (q = 0) by lia. subst q. vm_compute. discriminate.
Defined.

(** C10: the [cc_diff_files] schema rejects every [context_lines] that is
    negative, greater than 20, non-integral or not finite, so the handler
    (and [computeUnifiedDiff]) never runs on it; a missing [context_lines]
    gives 3, and every accepted call runs with a context count in [0..20]. *)
Theorem C10_context_lines_bounds :
  (forall fa fb q, (q < 0 \/ 20 < q \/ is_integer q = false)%Q ->
     cc_diff_files_validate fa fb (JNum (Finite q)) = InvalidParams)
  /\ (forall fa fb x, (forall q, x <> Finite q) ->
     cc_diff_files_validate fa fb (JNum x) = InvalidParams)
  /\ (forall fa fb, fa <> ""%string -> fb <> ""%string ->
     cc_diff_files_validate (JStr fa) (JStr fb) JUndefined = Handler fa fb 3)
  /\ (forall a b v fa fb n, cc_diff_files_validate a b v = Handler fa fb n ->
     n <= 20 /\ (v = JUndefined /\ n = 3 \/
                 exists q, v = JNum (Finite q) /\ is_integer q = true /\ (0 <= q <= 20)%Q)).
Proof.
  split; [|split; [|split]].
  - intros fa fb q Hq. unfold cc_diff_files_validate.
    assert (Hs : context_lines_schema (JNum (Finite q)) = None).
    { simpl. destruct (is_integer q) eqn:Ei; [|reflexivity].
      destruct (Qle_bool 0 q) eqn:E0; destruct (Qle_bool q 20) eqn:E20; try reflexivity.
      apply Qle_bool_iff in E0. apply Qle_bool_iff in E20.
      exfalso. destruct Hq as [H | [H | H]].
      - apply (Qlt_not_le q 0); assumption.
      - apply (Qlt_not_le 20 q); assumption.
      - congruence. }
    rewrite Hs. destruct (file_schema fa), (file_schema fb); reflexivity.
  - intros fa fb x Hx. destruct x as [q| | |]; [exfalso; exact (Hx q eq_refl)| | |];
      unfold cc_diff_files_validate; simpl;
      destruct (file_schema fa), (file_schema fb); reflexivity.
  - intros fa fb Ha Hb. unfold cc_diff_files_validate, file_schema.
    destruct fa as [|a fa]; [congruence|]. destruct fb as [|b fb]; [congruence|].
    reflexivity.
  - intros a b v fa fb n H. unfold cc_diff_files_validate in H.
    destruct (file_schema a), (file_schema b); try discriminate.
    destruct v as [| [q| | |] | |]; simpl in H; try discriminate.
    + injection H as _ _ <-. split; [lia | left; auto].
    + destruct (is_integer q) eqn:Ei, (Qle_bool 0 q) eqn:E0, (Qle_bool q 20) eqn:E20;
        simpl in H; try discriminate.
      injection H as _ _ <-.
      apply Qle_bool_iff in E0. apply Qle_bool_iff in E20.
      split.
      * destruct q as [num den]. unfold Qle in E0, E20. simpl in *.
        assert (Hd : (Z.div num (Z.pos den) <= 20)%Z).
        { apply Z.div_le_upper_bound; lia. }
        lia.
      * right. exists q. auto.
Qed.

Lemma C10_context_lines_bounds_witness :
  cc_diff_files_validate (JStr "a") (JStr "b") (JNum (Finite 21)) = InvalidParams
  /\ cc_diff_files_validate (JStr "a") (JStr "b") (JNum NaN) = InvalidParams
  /\ cc_diff_files_validate (JStr "a") (JStr "b") JUndefined = Handler "a" "b" 3
  /\ 3 <= 20.
Proof.
  split; [apply (proj1 C10_context_lines_bounds); right; left; reflexivity|].
  split; [apply (proj1 (proj2 C10_context_lines_bounds)); intros q; discriminate|].
  split; [apply (proj1 (proj2 (proj2 C10_context_lines_bounds))); discriminate|].
  apply (proj1 (proj2 (proj2 (proj2 C10_context_lines_bounds)) (JStr "a") (JStr "b") JUndefined "a" "b" 3 eq_refl)).
Defined.

(* ------------------------------------------------------------------ *)
(** ** The [cc_diff_files] handler: splitting and counting *)

Module Report.
Import LcsFacts Backtrack Grouping DiffFacts.

Definition nonl (s : string) : Prop := has_nl s = false.

Lemma split_nl_nonempty s : split_nl s <> [].
Proof.
  induction s as [|a s IH]; simpl; [discriminate|].
  destruct (Ascii.eqb a _); [discriminate|].
  destruct (split_nl s); [contradiction | discriminate].
Qed.

Lemma concat_cons_cons sep x y l :
  String.concat sep (x :: y :: l) = String.append x (String.append sep (String.concat sep (y :: l))).
Proof. reflexivity. Qed.

(** [lines.join('\n')] undoes [s.split('\n')]. *)
Lemma join_split s : String.concat nl (split_nl s) = s.
Proof.
  induction s as [|a s IH]; [reflexivity|]. simpl.
  pose proof (split_nl_nonempty s) as Hne.
  destruct (Ascii.eqb a (ascii_of_nat 10)) eqn:Ea.
  - apply Ascii.eqb_eq in Ea. subst a.
    destruct (split_nl s) as [|l r]; [contradiction|].
    rewrite concat_cons_cons, IH. reflexivity.
  - destruct (split_nl s) as [|l r]; [contradiction|].
    destruct r as [|l' r].
    + simpl in IH |- *. rewrite IH. reflexivity.
    + rewrite concat_cons_cons in IH. rewrite concat_cons_cons. cbn [String.append].
      rewrite IH. reflexivity.
Qed.

Lemma split_nl_inj a b : split_nl a = split_nl b -> a = b.
Proof. intros H. rewrite <- (join_split a), <- (join_split b), H. reflexivity. Qed.

Lemma has_nl_app a b : has_nl (String.append a b) = has_nl a || has_nl b.
Proof. induction a as [|x a IH]; simpl; [reflexivity|]. rewrite IH, orb_assoc. reflexivity. Qed.

Lemma append_nil s : String.append s "" = s.
Proof. induction s as [|a s IH]; simpl; [reflexivity|]. rewrite IH. reflexivity. Qed.

Lemma split_nl_app x t :
  has_nl x = false ->
  split_nl (String.append x t)
  = match split_nl t with l :: r => String.append x l :: r | [] => [x] end.
Proof.
  induction x as [|a x IH]; intros Hx; simpl.
  - pose proof (split_nl_nonempty t). destruct (split_nl t); [contradiction | reflexivity].
  - simpl in Hx. apply orb_false_iff in Hx as [Ha Hx].
    rewrite Ha, (IH Hx). destruct (split_nl t); reflexivity.
Qed.

Lemma split_nl_nl t : split_nl (String.append nl t) = "" :: split_nl t.
Proof. reflexivity. Qed.

(** [s.split('\n')] after [lines.join('\n')] gives the lines back when none
    of them holds a newline. *)
Lemma split_join ls :
  ls <> [] -> Forall nonl ls -> split_nl (String.concat nl ls) = ls.
Proof.
  induction ls as [|x ls IH]; intros Hne Hok; [contradiction|].
  inversion Hok as [|? ? Hx Hls]; subst.
  destruct ls as [|y ls].
  - simpl. rewrite <- (append_nil x) at 1. rewrite (split_nl_app x "" Hx). simpl.
    rewrite append_nil. reflexivity.
  - rewrite concat_cons_cons, (split_nl_app x _ Hx), split_nl_nl.
    rewrite (IH ltac:(discriminate) Hls), append_nil. reflexivity.
Qed.

Lemma split_nl_ok s : Forall nonl (split_nl s).
Proof.
  induction s as [|a s IH]; simpl.
  - repeat constructor.
  - destruct (Ascii.eqb a (ascii_of_nat 10)) eqn:Ea.
    + constructor; [reflexivity | exact IH].
    + destruct (split_nl s) as [|l r]; [repeat constructor; unfold nonl; simpl; rewrite Ea; reflexivity|].
      inversion IH as [|? ? Hl Hr]; subst. constructor; [|exact Hr].
      unfold nonl in *. simpl. rewrite Ea, Hl. reflexivity.
Qed.

Lemma has_nl_concat sep ls :
  has_nl sep = false -> Forall nonl ls -> has_nl (String.concat sep ls) = false.
Proof.
  intros Hs H. induction H as [|x ls Hx Hls IH]; [reflexivity|].
  destruct ls as [|y ls]; [exact Hx|].
  rewrite concat_cons_cons, !has_nl_app, Hs, Hx, IH. reflexivity.
Qed.

Lemma digit_nonl k : k < 10 -> Ascii.eqb (ascii_of_nat (48 + k)) (ascii_of_nat 10) = false.
Proof. intros Hk. do 10 (destruct k as [|k]; [reflexivity|]). lia. Qed.

Lemma digits_nonl fuel n acc : has_nl acc = false -> has_nl (digits fuel n acc) = false.
Proof.
  revert n acc; induction fuel as [|f IH]; intros n acc Hacc; cbn [digits]; [exact Hacc|].
  assert (Hd : Ascii.eqb (ascii_of_nat (48 + Z.to_nat (n mod 10))) (ascii_of_nat 10) = false).
  { apply digit_nonl. pose proof (Z.mod_pos_bound n 10 ltac:(lia)). lia. }
  destruct (n <? 10)%Z; [cbn [has_nl]; rewrite Hd; exact Hacc|].
  apply IH. cbn [has_nl]. rewrite Hd. exact Hacc.
Qed.

Lemma show_Z_nonl n : has_nl (show_Z n) = false.
Proof.
  unfold show_Z. destruct (n <? 0)%Z; [rewrite has_nl_app|]; rewrite digits_nonl; reflexivity.
Qed.

Lemma hunk_header_nonl h : has_nl (hunk_header h) = false.
Proof.
  unfold hunk_header. apply has_nl_concat; [reflexivity|].
  repeat constructor; unfold nonl; try apply show_Z_nonl; reflexivity.
Qed.

Lemma hunk_header_plus h : prefix "+" (hunk_header h) = false.
Proof. reflexivity. Qed.

Lemma hunk_header_minus h : prefix "-" (hunk_header h) = false.
Proof. reflexivity. Qed.

(** The lines of the hunks hold no newline when the records' texts hold
    none. *)
Definition texts_ok (l : list change) : Prop := Forall (fun x => has_nl (text x) = false) l.

Lemma line_nonl ch x :
  Ascii.eqb ch (ascii_of_nat 10) = false -> has_nl (text x) = false ->
  nonl (String.append (String ch "") (text x)).
Proof. intros Hc Ht. unfold nonl. simpl. rewrite Hc, Ht. reflexivity. Qed.

Lemma trailing_ok c l k : texts_ok l -> Forall nonl (trailing c l k).
Proof.
  intros H. revert k. induction H as [|x l Hx Hl IH]; intros k; simpl; [constructor|].
  destruct (k <? c); [|constructor]. destruct (is_equal x); [|apply IH].
  constructor; [apply line_nonl; [reflexivity | exact Hx] | apply IH].
Qed.

Lemma leading_ok c l k acc :
  texts_ok l -> Forall nonl acc -> Forall nonl (fst (leading c l k acc)).
Proof.
  intros H. revert k acc. induction H as [|x l Hx Hl IH]; intros k acc Hacc; simpl; [exact Hacc|].
  destruct (k <? c); [destruct (is_equal x)|]; simpl; try exact Hacc.
  apply IH. constructor; [apply line_nonl; [reflexivity | exact Hx] | exact Hacc].
Qed.

Lemma gap_ok l : texts_ok l -> Forall nonl (gap_lines l).
Proof.
  intros H. unfold gap_lines. apply Forall_map.
  apply Forall_forall. intros x Hin. apply filter_In in Hin as [Hin _].
  apply line_nonl; [reflexivity|]. exact (proj1 (Forall_forall _ _) H x Hin).
Qed.

Lemma texts_ok_firstn n l : texts_ok l -> texts_ok (firstn n l).
Proof.
  unfold texts_ok. intros H. apply Forall_forall. intros x Hx.
  apply (proj1 (Forall_forall _ _) H). rewrite <- (firstn_skipn n l).
  apply in_or_app. left. exact Hx.
Qed.

Lemma texts_ok_skipn n l : texts_ok l -> texts_ok (skipn n l).
Proof.
  unfold texts_ok. intros H. apply Forall_forall. intros x Hx.
  apply (proj1 (Forall_forall _ _) H). rewrite <- (firstn_skipn n l).
  apply in_or_app. right. exact Hx.
Qed.

Lemma all_lines_close changes c st :
  all_lines (close_hunk changes c st)
  = all_lines st ++ trailing c (skipn (Z.to_nat (lastChangeIdx st + 1)) changes) 0.
Proof.
  unfold all_lines, close_hunk. simpl. rewrite hunk_body_app. simpl.
  rewrite !app_nil_r, app_assoc. reflexivity.
Qed.

Lemma pre_close_ok changes c idx st :
  texts_ok changes -> Forall nonl (all_lines st) ->
  Forall nonl (all_lines (pre_close changes c idx st)).
Proof.
  intros Hc Hst. unfold pre_close.
  destruct (_ && _ && _ && _); [exact Hst|]. destruct (_ && _); [|exact Hst].
  rewrite all_lines_close. apply Forall_app. split; [exact Hst|].
  apply trailing_ok, texts_ok_skipn, Hc.
Qed.

Lemma open_or_fill_ok changes c idx x st :
  texts_ok changes -> Forall nonl (all_lines st) ->
  Forall nonl (all_lines (open_or_fill changes c idx x st)).
Proof.
  intros Hc Hst. unfold all_lines in *. apply Forall_app in Hst as [Hh Hl].
  unfold open_or_fill. destruct (_ =? 0).
  - pose proof (leading_ok c (rev (firstn idx changes)) 0 (hunkLines st)) as Hlead.
    destruct (leading _ _ _ _) as [lead cc]. simpl in *.
    apply Forall_app. split; [exact Hh|]. apply Hlead; [|exact Hl].
    apply Forall_rev, texts_ok_firstn, Hc.
  - simpl. apply Forall_app. split; [exact Hh|]. apply Forall_app. split; [exact Hl|].
    apply gap_ok, texts_ok_firstn, texts_ok_skipn, Hc.
Qed.

Lemma push_change_ok idx x st :
  has_nl (text x) = false -> Forall nonl (all_lines st) ->
  Forall nonl (all_lines (push_change idx x st)).
Proof.
  intros Hx Hst. unfold all_lines in *. apply Forall_app in Hst as [Hh Hl].
  unfold push_change. destruct (type x); simpl; apply Forall_app; split; try exact Hh;
    apply Forall_app; split; try exact Hl; constructor; try constructor;
    apply line_nonl; auto.
Qed.

Lemma group_from_ok changes c l :
  texts_ok changes -> texts_ok l ->
  forall idx st, Forall nonl (all_lines st) ->
  Forall nonl (all_lines (group_from changes c idx l st)).
Proof.
  intros Hc Hl. induction Hl as [|x l Hx Hl IH]; intros idx st Hst; simpl; [exact Hst|].
  apply IH. unfold group_step. destruct (is_equal x); [exact Hst|].
  apply push_change_ok; [exact Hx|]. apply open_or_fill_ok; [exact Hc|].
  apply pre_close_ok; assumption.
Qed.

Lemma hunk_body_ok changes c :
  texts_ok changes -> Forall nonl (hunk_body (hunks (group changes c))).
Proof.
  intros Hc.
  assert (H : Forall nonl (all_lines (group_from changes c 0 changes init_st))).
  { apply group_from_ok; auto. }
  unfold group. destruct (0 <? _).
  - set (st := group_from changes c 0 changes init_st) in *.
    assert (H2 : Forall nonl (all_lines (close_hunk changes c st))).
    { rewrite all_lines_close. apply Forall_app. split; [exact H|].
      apply trailing_ok, texts_ok_skipn, Hc. }
    unfold all_lines in H2. apply Forall_app in H2. tauto.
  - unfold all_lines in H. apply Forall_app in H. tauto.
Qed.

(** The [Insert] records the handler's [added] counter sees: an inserted
    line [t] is printed as ["+" ++ t], which the counter skips when it
    starts with ["+++"]. *)
Definition ins_counted (x : change) : bool :=
  match type x with CInsert => negb (prefix "++" (text x)) | _ => false end.

Definition del_counted (x : change) : bool :=
  match type x with CDelete => negb (prefix "--" (text x)) | _ => false end.

Lemma count_added_app a b : count_added (a ++ b) = count_added a + count_added b.
Proof. unfold count_added. rewrite filter_app, length_app. reflexivity. Qed.

Lemma count_removed_app a b : count_removed (a ++ b) = count_removed a + count_removed b.
Proof. unfold count_removed. rewrite filter_app, length_app. reflexivity. Qed.

Lemma count_ctx l : all_ctx l -> count_added l = 0 /\ count_removed l = 0.
Proof.
  intros H. induction H as [|s l Hs _ [IH1 IH2]]; [split; reflexivity|].
  destruct s as [|a s]; simpl in Hs; [discriminate|]. injection Hs as ->.
  unfold count_added, count_removed in *. simpl. auto.
Qed.

Lemma prefix_nil t : prefix "" t = true.
Proof. destruct t; reflexivity. Qed.

Lemma count_change x :
  is_equal x = false ->
  count_added [change_line x] = (if ins_counted x then 1 else 0) /\
  count_removed [change_line x] = (if del_counted x then 1 else 0).
Proof.
  unfold is_equal, change_line, ins_line, del_line, ins_counted, del_counted,
    count_added, count_removed.
  destruct (type x); intros H; [discriminate| |]; cbn [String.append filter];
    [ change (prefix "---" (String "-" (text x))) with (prefix "--" (text x))
    | change (prefix "+++" (String "+" (text x))) with (prefix "++" (text x)) ];
    [destruct (prefix "--" (text x)) | destruct (prefix "++" (text x))]; split; simpl;
    rewrite ?prefix_nil; reflexivity.
Qed.

Lemma group_from_report changes c l :
  forall idx st,
  count_added (all_lines (group_from changes c idx l st))
    = count_added (all_lines st) + List.length (filter ins_counted l) /\
  count_removed (all_lines (group_from changes c idx l st))
    = count_removed (all_lines st) + List.length (filter del_counted l).
Proof.
  induction l as [|x l IH]; intros idx st; simpl; [lia|].
  destruct (IH (S idx) (group_step changes c idx x st)) as [IH1 IH2].
  rewrite IH1, IH2.
  destruct (is_equal x) eqn:Hx.
  - rewrite group_step_equal by exact Hx.
    unfold is_equal in Hx. unfold ins_counted, del_counted.
    destruct (type x); try discriminate. split; reflexivity.
  - destruct (group_step_lines changes c idx x st Hx) as [ctx [Hc E]]. rewrite E.
    destruct (count_change x Hx) as [C1 C2]. destruct (count_ctx ctx Hc) as [D1 D2].
    rewrite !count_added_app, !count_removed_app, C1, C2, D1, D2.
    destruct (ins_counted x), (del_counted x); simpl; lia.
Qed.

Lemma hunk_body_report changes c :
  count_added (hunk_body (hunks (group changes c))) = List.length (filter ins_counted changes) /\
  count_removed (hunk_body (hunks (group changes c))) = List.length (filter del_counted changes).
Proof.
  destruct (group_lines changes c) as [tr [Htr E]]. rewrite E.
  destruct (group_from_report changes c changes 0 init_st) as [C1 C2].
  destruct (count_ctx tr Htr) as [D1 D2].
  rewrite !count_added_app, !count_removed_app, C1, C2, D1, D2. simpl. lia.
Qed.

Lemma count_header h l :
  count_added (hunk_header h :: l) = count_added l /\
  count_removed (hunk_header h :: l) = count_removed l.
Proof.
  unfold count_added, count_removed. cbn [filter].
  rewrite hunk_header_plus, hunk_header_minus. cbn [andb]. split; reflexivity.
Qed.

Lemma count_headers hs :
  count_added (flat_map (fun h => hunk_header h :: lines h) hs) = count_added (hunk_body hs) /\
  count_removed (flat_map (fun h => hunk_header h :: lines h) hs) = count_removed (hunk_body hs).
Proof.
  induction hs as [|h hs [IH1 IH2]]; [split; reflexivity|].
  unfold hunk_body in *. cbn [flat_map]. rewrite <- app_comm_cons.
  destruct (count_header h (lines h ++ flat_map (fun h => hunk_header h :: lines h) hs))
    as [E1 E2].
  rewrite E1, E2, !count_added_app, !count_removed_app, IH1, IH2. split; reflexivity.
Qed.

Lemma render_lines hs fa fb :
  hs <> [] -> has_nl fa = false -> has_nl fb = false -> Forall nonl (hunk_body hs) ->
  split_nl (render hs fa fb)
  = [String.append "--- " fa; String.append "+++ " fb]
      ++ flat_map (fun h => hunk_header h :: lines h) hs.
Proof.
  intros Hne Ha Hb Hl. destruct hs as [|h0 hs0]; [contradiction|].
  unfold render. apply split_join; [discriminate|].
  constructor; [unfold nonl; rewrite has_nl_app; exact Ha|].
  constructor; [unfold nonl; rewrite has_nl_app; exact Hb|].
  unfold hunk_body in Hl. revert Hl. generalize (h0 :: hs0). intros hs Hl.
  induction hs as [|h hs IH]; simpl in *; [constructor|].
  apply Forall_app in Hl as [Hh Hr].
  constructor; [apply hunk_header_nonl|]. apply Forall_app. auto.
Qed.

(** Texts of the records come from [A] or [B]. *)
Lemma text_in x l : In x l -> In (text x) (projA l) \/ In (text x) (projB l).
Proof.
  induction l as [|y l IH]; simpl; [tauto|]. intros [-> | H].
  - destruct (type x); simpl; auto.
  - destruct (IH H); destruct (type y); simpl; auto.
Qed.

Lemma diff_texts_ok A B :
  Forall nonl A -> Forall nonl B -> texts_ok (diff_changes A B).
Proof.
  intros HA HB. destruct (diff_changes_spec A B) as (EA & EB & _).
  apply Forall_forall. intros x Hx. destruct (text_in x _ Hx) as [H | H].
  - rewrite EA in H. exact (proj1 (Forall_forall _ _) HA _ H).
  - rewrite EB in H. exact (proj1 (Forall_forall _ _) HB _ H).
Qed.

Lemma diff_empty_same A B c fa fb : computeUnifiedDiff A B c fa fb = "" -> A = B.
Proof.
  unfold computeUnifiedDiff, diff_hunks. intros H.
  destruct (hunks (group (diff_changes A B) c)) eqn:Eh.
  - destruct (group_counts (diff_changes A B) c) as [C1 C2].
    rewrite Eh in C1, C2. unfold n_prefixed, hunk_body in C1, C2. simpl in C1, C2.
    pose proof (no_change_all_equal (diff_changes A B) ltac:(lia)) as Heq.
    destruct (diff_changes_spec A B) as (HA & HB & _).
    transitivity (projA (diff_changes A B)); [symmetry; exact HA|].
    rewrite all_equal_proj by exact Heq. exact HB.
  - exfalso. revert H. apply render_nonempty. discriminate.
Qed.

Lemma counted_all l :
  Forall (fun x => type x = CInsert -> prefix "++" (text x) = false) l ->
  List.length (filter ins_counted l) = n_of CInsert l.
Proof.
  intros H. induction H as [|x l Hx _ IH]; [reflexivity|]. cbn [filter n_of].
  rewrite <- IH. unfold ins_counted at 1.
  destruct (type x); [reflexivity | reflexivity | rewrite (Hx eq_refl); reflexivity].
Qed.

Lemma counted_all_del l :
  Forall (fun x => type x = CDelete -> prefix "--" (text x) = false) l ->
  List.length (filter del_counted l) = n_of CDelete l.
Proof.
  intros H. induction H as [|x l Hx _ IH]; [reflexivity|]. cbn [filter n_of].
  rewrite <- IH. unfold del_counted at 1.
  destruct (type x); [reflexivity | rewrite (Hx eq_refl); reflexivity | reflexivity].
Qed.

Lemma ins_texts l P :
  Forall P (projB l) -> Forall (fun x => type x = CInsert -> P (text x)) l.
Proof.
  induction l as [|x l IH]; simpl; intros H; [constructor|].
  destruct (type x) eqn:Et.
  - inversion H as [|? ? _ H']; subst. constructor; [congruence | auto].
  - constructor; [congruence | auto].
  - inversion H as [|? ? Hx H']; subst. constructor; [intros _; exact Hx | auto].
Qed.

Lemma del_texts l P :
  Forall P (projA l) -> Forall (fun x => type x = CDelete -> P (text x)) l.
Proof.
  induction l as [|x l IH]; simpl; intros H; [constructor|].
  destruct (type x) eqn:Et.
  - inversion H as [|? ? _ H']; subst. constructor; [congruence | auto].
  - inversion H as [|? ? Hx H']; subst. constructor; [intros _; exact Hx | auto].
  - constructor; [congruence | auto].
Qed.

Lemma header_lines_count fa fb l :
  count_added ([String.append "--- " fa; String.append "+++ " fb] ++ l) = count_added l /\
  count_removed ([String.append "--- " fa; String.append "+++ " fb] ++ l) = count_removed l.
Proof. split; reflexivity. Qed.

Lemma report_counts contentA contentB c fa fb :
  has_nl fa = false -> has_nl fb = false -> contentA <> contentB ->
  cc_diff_files_report contentA contentB c fa fb
  = Report (List.length (filter ins_counted (diff_changes (split_nl contentA) (split_nl contentB))))
           (List.length (filter del_counted (diff_changes (split_nl contentA) (split_nl contentB))))
           (computeUnifiedDiff (split_nl contentA) (split_nl contentB) c fa fb).
Proof.
  intros Ha Hb Hne. unfold cc_diff_files_report.
  destruct (String.eqb_spec contentA contentB) as [E|_]; [contradiction|].
  set (A := split_nl contentA). set (B := split_nl contentB).
  assert (Hhs : diff_hunks A B c <> []).
  { intros E. apply Hne, split_nl_inj. apply (diff_empty_same A B c fa fb).
    unfold computeUnifiedDiff. rewrite E. reflexivity. }
  assert (Hok : Forall nonl (hunk_body (diff_hunks A B c))).
  { apply hunk_body_ok, diff_texts_ok; apply split_nl_ok. }
  unfold computeUnifiedDiff at 1 2. rewrite (render_lines _ fa fb Hhs Ha Hb Hok).
  destruct (header_lines_count fa fb (flat_map (fun h => hunk_header h :: lines h) (diff_hunks A B c)))
    as [E1 E2].
  destruct (count_headers (diff_hunks A B c)) as [F1 F2].
  destruct (hunk_body_report (diff_changes A B) c) as [G1 G2].
  unfold diff_hunks in *. rewrite E1, E2, F1, F2, G1, G2. reflexivity.
Qed.

End Report.

(* ------------------------------------------------------------------ *)
(** ** Further properties of the code *)

(** The [cc_diff_files] handler answers "identical" exactly when the two
    contents are equal; otherwise the diff it shows is never empty. *)
Theorem diff_report_identical (contentA contentB : string) (c : nat) (fa fb : string) :
  (cc_diff_files_report contentA contentB c fa fb = Identical <-> contentA = contentB) /\
  (forall added removed out,
     cc_diff_files_report contentA contentB c fa fb = Report added removed out -> out <> ""%string).
Proof.
  unfold cc_diff_files_report.
  destruct (String.eqb_spec contentA contentB) as [E | Hne].
  - split; [tauto | discriminate].
  - split; [split; [discriminate | contradiction]|].
    intros added removed out H. injection H as _ _ <-. intros H.
    apply Report.diff_empty_same in H. apply Report.split_nl_inj in H. contradiction.
Qed.

(** When the contents differ and the file names hold no newline, the
    handler's [added] counter is the number of [Insert] records whose text
    does not start with ["++"] (a line ["+++..."] is taken for a header), and
    [removed] the number of [Delete] records whose text does not start with
    ["--"]. *)
Theorem diff_report_counts (contentA contentB : string) (c : nat) (fa fb : string) :
  has_nl fa = false -> has_nl fb = false -> contentA <> contentB ->
  cc_diff_files_report contentA contentB c fa fb
  = Report (List.length (filter Report.ins_counted
                           (diff_changes (split_nl contentA) (split_nl contentB))))
           (List.length (filter Report.del_counted
                           (diff_changes (split_nl contentA) (split_nl contentB))))
           (computeUnifiedDiff (split_nl contentA) (split_nl contentB) c fa fb).
Proof. apply Report.report_counts. Qed.

Lemma diff_report_counts_witness :
  cc_diff_files_report "a" (String.concat nl ["a"; "++x"]) 3 "A" "B"
  = Report (List.length (filter Report.ins_counted
                           (diff_changes (split_nl "a") (split_nl (String.concat nl ["a"; "++x"])))))
           (List.length (filter Report.del_counted
                           (diff_changes (split_nl "a") (split_nl (String.concat nl ["a"; "++x"])))))
           (computeUnifiedDiff (split_nl "a") (split_nl (String.concat nl ["a"; "++x"])) 3 "A" "B").
Proof.
  apply diff_report_counts; [reflexivity | reflexivity | intros H; vm_compute in H; discriminate H].
Defined.

(** When moreover no line of the first file starts with ["--"] and no line
    of the second with ["++"], the summary is exact: [added] is the number
    of lines of B outside a longest common subsequence, [removed] the number
    of lines of A outside it. *)
Theorem diff_report_exact (contentA contentB : string) (c : nat) (fa fb : string) :
  has_nl fa = false -> has_nl fb = false -> contentA <> contentB ->
  Forall (fun l => prefix "--" l = false) (split_nl contentA) ->
  Forall (fun l => prefix "++" l = false) (split_nl contentB) ->
  cc_diff_files_report contentA contentB c fa fb
  = Report (List.length (split_nl contentB)
              - get (computeLCS (split_nl contentA) (split_nl contentB))
                    (List.length (split_nl contentA)) (List.length (split_nl contentB)))
           (List.length (split_nl contentA)
              - get (computeLCS (split_nl contentA) (split_nl contentB))
                    (List.length (split_nl contentA)) (List.length (split_nl contentB)))
           (computeUnifiedDiff (split_nl contentA) (split_nl contentB) c fa fb).
Proof.
  intros Ha Hb Hne HA HB. rewrite (Report.report_counts _ _ c fa fb Ha Hb Hne).
  set (A := split_nl contentA) in *. set (B := split_nl contentB) in *.
  destruct (diff_changes_spec A B) as (EA & EB & _).
  destruct (diff_counts A B) as (_ & HD & HI & _).
  rewrite get_ok, D_full by lia.
  rewrite Report.counted_all, Report.counted_all_del, HD, HI; [reflexivity| |].
  - apply (Report.del_texts _ (fun l => prefix "--" l = false)). rewrite EA. exact HA.
  - apply (Report.ins_texts _ (fun l => prefix "++" l = false)). rewrite EB. exact HB.
Qed.

Lemma diff_report_exact_witness :
  cc_diff_files_report (String.concat nl ["a"; "b"]) (String.concat nl ["a"; "c"]) 3 "A" "B"
  = Report (List.length (split_nl (String.concat nl ["a"; "c"]))
              - get (computeLCS (split_nl (String.concat nl ["a"; "b"]))
                                (split_nl (String.concat nl ["a"; "c"])))
                    (List.length (split_nl (String.concat nl ["a"; "b"])))
                    (List.length (split_nl (String.concat nl ["a"; "c"]))))
           (List.length (split_nl (String.concat nl ["a"; "b"]))
              - get (computeLCS (split_nl (String.concat nl ["a"; "b"]))
                                (split_nl (String.concat nl ["a"; "c"])))
                    (List.length (split_nl (String.concat nl ["a"; "b"])))
                    (List.length (split_nl (String.concat nl ["a"; "c"]))))
           (computeUnifiedDiff (split_nl (String.concat nl ["a"; "b"]))
                               (split_nl (String.concat nl ["a"; "c"])) 3 "A" "B").
Proof.
  apply diff_report_exact; [reflexivity | reflexivity | intros H; vm_compute in H; discriminate H
    | vm_compute; repeat constructor | vm_compute; repeat constructor].
Defined.

(* ------------------------------------------------------------------ *)
(** ** Lemmas on [classifyImport] and [cc_organize_imports] *)

Module Imports.

Lemma before_dot_app p s :
  includes "." p = false -> before_dot (String.append p (String "." s)) = p.
Proof.
  induction p as [|a p IH]; intros H; [reflexivity|].
  cbn [includes] in H. apply orb_false_iff in H as [H1 H2].
  cbn [String.append before_dot]. rewrite (IH H2).
  destruct (Ascii.eqb a ".") eqn:E; [|reflexivity].
  apply Ascii.eqb_eq in E. subst a. exfalso. revert H1. cbn [prefix].
  destruct (ascii_dec _ _); [rewrite Report.prefix_nil; discriminate | congruence].
Qed.

Lemma before_dot_nodot p : includes "." p = false -> before_dot p = p.
Proof.
  induction p as [|a p IH]; intros H; [reflexivity|].
  cbn [includes] in H. apply orb_false_iff in H as [H1 H2].
  cbn [before_dot]. rewrite (IH H2).
  destruct (Ascii.eqb a ".") eqn:E; [|reflexivity].
  apply Ascii.eqb_eq in E. subst a. exfalso. revert H1. cbn [prefix].
  destruct (ascii_dec _ _); [rewrite Report.prefix_nil; discriminate | congruence].
Qed.

Lemma prefix_dot_app a p s :
  prefix "." (String a p) = false -> prefix "." (String a s) = false.
Proof.
  cbn [prefix]. destruct (ascii_dec "." a); [rewrite !Report.prefix_nil|]; auto.
Qed.

(** Membership and multiplicity through [set_unique]. *)
Lemma set_unique_in x l : forall seen,
  In x (set_unique seen l) <-> In x l /\ ~ In x seen.
Proof.
  induction l as [|y l IH]; intros seen; simpl; [tauto|].
  destruct (existsb (String.eqb y) seen) eqn:E.
  - rewrite IH. apply existsb_exists in E as [z [Hz Ez]]. apply String.eqb_eq in Ez. subst z.
    split; [tauto|]. intros [[<- | H] Hn]; [contradiction | auto].
  - simpl. rewrite IH. simpl.
    assert (~ In y seen).
    { intros Hin. assert (existsb (String.eqb y) seen = true) as E'
        by (apply existsb_exists; exists y; split; [exact Hin | apply String.eqb_refl]).
      congruence. }
    split.
    + intros [<- | [H1 H2]]; [tauto | split; [auto | tauto]].
    + intros [[<- | H1] H2]; [auto|].
      destruct (String.eqb_spec y x) as [<-|Hne]; [auto|].
      right. split; [exact H1|]. intros [E' | E']; [congruence | contradiction].
Qed.

Lemma set_unique_nodup l : forall seen, NoDup (set_unique seen l).
Proof.
  induction l as [|y l IH]; intros seen; simpl; [constructor|].
  destruct (existsb (String.eqb y) seen); [apply IH|].
  constructor; [|apply IH]. rewrite set_unique_in. simpl. tauto.
Qed.

Lemma count_set_unique x l : In x l -> count_occ string_dec (set_unique [] l) x = 1.
Proof.
  intros H. apply NoDup_count_occ'; [apply set_unique_nodup|].
  apply set_unique_in. simpl. tauto.
Qed.

Lemma count_insert_sorted x y l :
  count_occ string_dec (insert_sorted y l) x = count_occ string_dec (y :: l) x.
Proof.
  induction l as [|z l IH]; [reflexivity|]. cbn [insert_sorted].
  destruct (String.compare y z); [reflexivity | reflexivity|].
  cbn [count_occ] in *. rewrite IH. cbn [count_occ].
  destruct (string_dec z x), (string_dec y x); reflexivity.
Qed.

Lemma count_sort x l : count_occ string_dec (sort_strings l) x = count_occ string_dec l x.
Proof.
  induction l as [|y l IH]; [reflexivity|]. cbn [sort_strings].
  rewrite count_insert_sorted. cbn [count_occ]. rewrite IH. reflexivity.
Qed.

Lemma in_sort x l : In x (sort_strings l) <-> In x l.
Proof.
  rewrite !(count_occ_In string_dec). rewrite count_sort. reflexivity.
Qed.

Lemma count_filter (p : string -> bool) x l :
  count_occ string_dec (filter p l) x = if p x then count_occ string_dec l x else 0.
Proof.
  induction l as [|y l IH]; cbn [filter count_occ]; [destruct (p x); reflexivity|].
  destruct (p y) eqn:Ey; cbn [count_occ]; rewrite IH;
    destruct (string_dec y x) as [E|E]; try subst y; try rewrite Ey; reflexivity.
Qed.

Lemma count_rev x l : count_occ string_dec (rev l) x = count_occ string_dec l x.
Proof.
  induction l as [|y l IH]; [reflexivity|]. cbn [rev]. rewrite count_occ_app, IH.
  cbn [count_occ]. destruct (string_dec y x); lia.
Qed.

Lemma count_drop_empty x rl : x <> ""%string ->
  count_occ string_dec (drop_empty rl) x = count_occ string_dec rl x.
Proof.
  intros Hx. induction rl as [|y r IH]; [reflexivity|]. cbn [drop_empty].
  destruct (String.eqb_spec y "") as [->|]; [|reflexivity].
  rewrite IH. cbn [count_occ]. destruct (string_dec "" x); [congruence | reflexivity].
Qed.

Lemma count_group_block x g : x <> ""%string ->
  count_occ string_dec (group_block g) x = count_occ string_dec g x.
Proof.
  intros Hx. unfold group_block. destruct g as [|y g]; [reflexivity|].
  rewrite count_occ_app. cbn [count_occ]. destruct (string_dec "" x); [congruence|].
  destruct (string_dec y x); lia.
Qed.

(** How often a non-empty line occurs in the new block. *)
Lemma count_block x importLines : x <> ""%string ->
  count_occ string_dec (newImportBlock (organize_block importLines)) x
  = count_occ string_dec (futureImports (organize_block importLines)) x
    + count_occ string_dec (stdlibImports (organize_block importLines)) x
    + count_occ string_dec (thirdPartyImports (organize_block importLines)) x
    + count_occ string_dec (localImports (organize_block importLines)) x.
Proof.
  intros Hx. unfold organize_block. cbn [newImportBlock futureImports stdlibImports
    thirdPartyImports localImports].
  rewrite count_rev, count_drop_empty, count_rev, !count_occ_app, !count_group_block by exact Hx.
  lia.
Qed.

Lemma in_drop_empty x rl : In x (drop_empty rl) -> In x rl.
Proof.
  induction rl as [|y r IH]; [auto|]. cbn [drop_empty].
  destruct (String.eqb y ""); [right; auto | auto].
Qed.

Lemma in_group_block x g : In x (group_block g) -> x = ""%string \/ In x g.
Proof.
  unfold group_block. destruct g as [|y g]; [simpl; tauto|].
  intros H. apply in_app_or in H as [H|H]; [auto|].
  destruct H as [<-|[]]. left. reflexivity.
Qed.

(** Every line of the new block is empty or one of the import lines. *)
Lemma in_block x importLines :
  In x (newImportBlock (organize_block importLines)) -> x = ""%string \/ In x importLines.
Proof.
  unfold organize_block. cbn [newImportBlock]. intros H.
  apply in_rev, in_drop_empty, in_rev in H.
  repeat (apply in_app_or in H as [H|H]);
    (apply in_group_block in H as [H|H]; [left; exact H|right]);
    apply in_sort, filter_In in H as [H _]; apply set_unique_in in H; tauto.
Qed.

Ltac peel H :=
  match type of H with
  | prefix (String ?c _) ?l = true =>
      let a := fresh "a" in let l' := fresh "l" in
      destruct l as [|a l']; [discriminate H|]; cbn [prefix] in H;
      destruct (ascii_dec c a) as [<-|]; [|discriminate H]
  end.

(** An ["import x"] line yields the module name ["import"]. *)
Lemma import_module_import l : prefix "import " l = true -> import_module l = "import"%string.
Proof.
  intros H. do 7 peel H. reflexivity.
Qed.

Lemma classify_import_word : classifyImport "import" = third_party.
Proof. vm_compute. reflexivity. Qed.

(** The scan of the import block. *)
Definition scan_inv (L : list string) (i : nat) (st en : Z) (acc : list string) : Prop :=
  (st = (-1)%Z /\ acc = [] /\
     forall k, k < i -> is_import_line (trim (nth k L "")) = false) \/
  (exists s e, st = Z.of_nat s /\ en = Z.of_nat e /\ s <= e < i /\ acc <> [] /\
     is_import_line (trim (nth s L "")) = true /\
     is_import_line (trim (nth e L "")) = true /\
     (forall k, k < s -> is_import_line (trim (nth k L "")) = false) /\
     Forall (fun t => is_import_line t = true /\
                      exists k, k < List.length L /\ t = trim (nth k L "")) acc).

Lemma skipn_cons_nth {A} (L : list A) i l rest d :
  skipn i L = l :: rest -> nth i L d = l /\ skipn (S i) L = rest /\ i < List.length L.
Proof.
  revert L; induction i as [|i IH]; intros L H; destruct L as [|x L]; simpl in *;
    try discriminate.
  - injection H as -> ->. repeat split; lia.
  - destruct (IH L H) as (E1 & E2 & E3). repeat split; auto; lia.
Qed.

Lemma scan_ok L : forall ls i st en acc,
  skipn i L = ls -> i <= List.length L -> scan_inv L i st en acc ->
  exists j, j <= List.length L /\
    let '(st', en', acc') := scan_imports i ls st en acc in scan_inv L j st' en' acc'.
Proof.
  induction ls as [|l rest IH]; intros i st en acc Hs Hi Hinv.
  - exists i. split; [exact Hi | exact Hinv].
  - destruct (skipn_cons_nth L i l rest "" Hs) as (En & Es & Ei).
    cbn [scan_imports].
    destruct (is_import_line (trim l)) eqn:Eimp.
    + apply IH; [exact Es | lia |]. right.
      destruct Hinv as [(Est & Eacc & Hk) | (s & e & Est & Een & Hse & Hne & Hs1 & He1 & Hk & Hall)].
      * subst st acc. exists i, i. rewrite Z.eqb_refl.
        repeat split; try lia; try (rewrite En; exact Eimp); try discriminate; auto.
        constructor; [|constructor]. split; [exact Eimp|]. exists i. rewrite En. split; auto.
      * subst st. replace (Z.of_nat s =? -1)%Z with false by lia.
        exists s, i. repeat split; try lia; auto.
        -- destruct acc; simpl; discriminate.
        -- rewrite En. exact Eimp.
        -- apply Forall_app. split; [exact Hall|]. constructor; [|constructor].
           split; [exact Eimp|]. exists i. rewrite En. split; auto.
    + destruct (negb (st =? -1)%Z && negb (String.eqb (trim l) "") && negb (prefix "#" (trim l))).
      * destruct (en <? Z.of_nat i - 2)%Z.
        -- exists i. split; [lia | exact Hinv].
        -- apply IH; [exact Es | lia |].
           destruct Hinv as [(Est & Eacc & Hk) | (s & e & Est & Een & Hse & Hrest)].
           ++ left. repeat split; auto. intros k Hk'.
              destruct (Nat.eq_dec k i) as [->|]; [rewrite En; exact Eimp | apply Hk; lia].
           ++ right. exists s, e. destruct Hrest as (? & ? & ? & ? & ?).
              repeat split; auto; lia.
      * apply IH; [exact Es | lia |].
        destruct Hinv as [(Est & Eacc & Hk) | (s & e & Est & Een & Hse & Hrest)].
        -- left. repeat split; auto. intros k Hk'.
           destruct (Nat.eq_dec k i) as [->|]; [rewrite En; exact Eimp | apply Hk; lia].
        -- right. exists s, e. destruct Hrest as (? & ? & ? & ? & ?).
              repeat split; auto; lia.
Qed.

Lemma has_nl_ltrim s : has_nl s = false -> has_nl (ltrim s) = false.
Proof.
  induction s as [|a s IH]; intros H; [reflexivity|]. cbn [ltrim].
  destruct (is_ws a); [|exact H].
  apply IH. cbn [has_nl] in H. apply orb_false_iff in H. tauto.
Qed.

Lemma has_nl_rtrim s : has_nl s = false -> has_nl (rtrim s) = false.
Proof.
  induction s as [|a s IH]; intros H; [reflexivity|].
  cbn [has_nl] in H. apply orb_false_iff in H as [H1 H2].
  cbn [rtrim]. destruct (is_ws a && _); [reflexivity|].
  cbn [has_nl]. rewrite H1, (IH H2). reflexivity.
Qed.

Lemma has_nl_trim s : has_nl s = false -> has_nl (trim s) = false.
Proof. intros H. apply has_nl_rtrim, has_nl_ltrim, H. Qed.

Lemma import_line_nonempty t : is_import_line t = true -> t <> ""%string.
Proof. intros H ->. vm_compute in H. discriminate H. Qed.

(** How often an import line occurs in the new block. *)
Lemma count_block_line importLines l : In l importLines -> l <> ""%string ->
  count_occ string_dec (newImportBlock (organize_block importLines)) l =
  if includes "__future__" l then
    (if import_type_eqb (classifyImport (import_module l)) stdlib then 1 else 2)
  else 1.
Proof.
  intros Hin Hne. rewrite count_block by exact Hne.
  unfold organize_block; cbn [futureImports stdlibImports thirdPartyImports localImports].
  rewrite !count_sort, !count_filter. cbv beta.
  rewrite count_set_unique by exact Hin.
  destruct (includes "__future__" l); cbn [negb andb];
    destruct (classifyImport (import_module l)); reflexivity.
Qed.

(** The scan ends with no import line exactly when it meets none. *)
Lemma scan_acc_grow ls : forall i st en acc,
  acc <> [] -> snd (scan_imports i ls st en acc) <> [].
Proof.
  induction ls as [|l rest IH]; intros i st en acc Hne; [exact Hne|].
  cbn [scan_imports].
  destruct (is_import_line (trim l)).
  - apply IH. destruct acc; discriminate.
  - destruct (_ && _ && _); [destruct (_ <? _)%Z; [exact Hne|]|]; apply IH; exact Hne.
Qed.

Lemma scan_none ls : forall i en,
  snd (scan_imports i ls (-1) en []) = [] <->
  Forall (fun l => is_import_line (trim l) = false) ls.
Proof.
  induction ls as [|l rest IH]; intros i en; cbn [scan_imports].
  - split; [constructor | reflexivity].
  - destruct (is_import_line (trim l)) eqn:E.
    + split; [|intros H; inversion H; congruence].
      intros H. exfalso. revert H. apply scan_acc_grow. discriminate.
    + rewrite Z.eqb_refl. cbn [negb andb]. rewrite IH. split; [intros H; constructor; auto|].
      intros H; inversion H; auto.
Qed.

End Imports.

(** Extra (classifyImport): a dotted module name that does not start with
    a dot is classified as its top-level package. *)
Theorem classify_import_top_level p s :
  p <> ""%string -> includes "." p = false ->
  classifyImport (String.append p (String "." s)) = classifyImport p.
Proof.
  intros Hp Hd. destruct p as [|a p]; [congruence|].
  unfold classifyImport. rewrite Imports.before_dot_app, Imports.before_dot_nodot by exact Hd.
  destruct (prefix "." (String a p)) eqn:E.
  - exfalso. cbn [includes] in Hd. rewrite E in Hd. discriminate Hd.
  - cbn [String.append]. rewrite (Imports.prefix_dot_app a p _ E). reflexivity.
Qed.

Lemma classify_import_top_level_witness :
  classifyImport (String.append "os" (String "." "path")) = classifyImport "os".
Proof. apply (classify_import_top_level "os" "path"); [discriminate | reflexivity]. Defined.

(** Extra (cc_organize_imports): an ["import X"] line is put in the
    third-party group, never in the standard-library or local group, because
    the module pattern captures the word ["import"]. *)
Theorem organize_import_stmt_third_party importLines l :
  In l importLines -> prefix "import " l = true ->
  In l (thirdPartyImports (organize_block importLines)) /\
  ~ In l (stdlibImports (organize_block importLines)) /\
  ~ In l (localImports (organize_block importLines)).
Proof.
  intros Hin Hp. unfold organize_block; cbn [thirdPartyImports stdlibImports localImports].
  rewrite (Imports.in_sort l), (Imports.in_sort l), (Imports.in_sort l), !filter_In.
  rewrite (Imports.import_module_import l Hp), Imports.classify_import_word.
  cbn [import_type_eqb]. rewrite andb_false_r.
  split; [split; [apply Imports.set_unique_in; split; [exact Hin | intros []] | reflexivity]|].
  split; intros [_ H]; discriminate H.
Qed.

Lemma organize_import_stmt_third_party_witness :
  In "import os" (thirdPartyImports (organize_block ["import os"; "from os import path"])) /\
  ~ In "import os" (stdlibImports (organize_block ["import os"; "from os import path"])) /\
  ~ In "import os" (localImports (organize_block ["import os"; "from os import path"])).
Proof.
  apply (organize_import_stmt_third_party ["import os"; "from os import path"] "import os");
    [left; reflexivity | reflexivity].
Defined.

(** Extra (cc_organize_imports): every distinct import line appears once in
    the new block, except a line mentioning ["__future__"] whose module is
    not a standard-library one, which appears twice (in the [__future__]
    group and in its own group). *)
Theorem organize_block_multiplicity importLines l :
  In l importLines -> l <> ""%string ->
  count_occ string_dec (newImportBlock (organize_block importLines)) l =
  if includes "__future__" l then
    (if import_type_eqb (classifyImport (import_module l)) stdlib then 1 else 2)
  else 1.
Proof. apply Imports.count_block_line. Qed.

Lemma organize_block_multiplicity_witness :
  count_occ string_dec
    (newImportBlock (organize_block ["import __future__"; "import os"; "import __future__"]))
    "import __future__" = 2.
Proof.
  rewrite (organize_block_multiplicity ["import __future__"; "import os"; "import __future__"]
             "import __future__"); [reflexivity | left; reflexivity | discriminate].
Defined.

(** Extra (cc_organize_imports): the tool finds no import block exactly when
    no line of the file, trimmed, starts with ["import "] or ["from "]. *)
Theorem organize_imports_none content :
  cc_organize_imports_apply content = None <->
  Forall (fun l => is_import_line (trim l) = false) (split_nl content).
Proof.
  rewrite <- (Imports.scan_none (split_nl content) 0 (-1)).
  unfold cc_organize_imports_apply.
  destruct (scan_imports 0 (split_nl content) (-1) (-1) []) as [[st en] acc].
  cbn [snd]. destruct acc; split; intros H; (reflexivity || discriminate H).
Qed.

(** Extra (cc_organize_imports): when it rewrites a file, the lines before
    the first import line and after the last import line of the block are
    kept as they are, and the lines in between are replaced by the new
    block, whose lines are each empty or an import line. *)
Theorem organize_imports_rewrite content o out :
  cc_organize_imports_apply content = Some (o, out) ->
  exists s e, s <= e < List.length (split_nl content) /\
    is_import_line (trim (nth s (split_nl content) "")) = true /\
    is_import_line (trim (nth e (split_nl content) "")) = true /\
    (forall k, k < s -> is_import_line (trim (nth k (split_nl content) "")) = false) /\
    Forall (fun b => b = ""%string \/ is_import_line b = true) (newImportBlock o) /\
    split_nl out = firstn s (split_nl content) ++ newImportBlock o
                   ++ skipn (S e) (split_nl content).
Proof.
  set (L := split_nl content). intros H. unfold cc_organize_imports_apply in H. fold L in H.
  destruct (Imports.scan_ok L L 0 (-1) (-1) [] eq_refl (Nat.le_0_l _)) as [j [Hj Hinv]].
  { left. repeat split. intros k Hk. lia. }
  destruct (scan_imports 0 L (-1) (-1) []) as [[st en] acc] eqn:Es.
  destruct acc as [|a acc']; [discriminate H|]. injection H as <- <-.
  destruct Hinv as [(_ & Eacc & _) | (s & e & -> & -> & Hse & _ & Hs & He & Hk & Hall)];
    [discriminate Eacc|].
  assert (Hblock : Forall (fun b => b = ""%string \/ In b (a :: acc'))
                     (newImportBlock (organize_block (a :: acc')))).
  { apply Forall_forall. intros x Hx. apply Imports.in_block, Hx. }
  exists s, e. repeat split; try lia; auto.
  - eapply Forall_impl; [|exact Hblock]. intros b [Hb|Hb]; [left; exact Hb|right].
    rewrite Forall_forall in Hall. apply (Hall b Hb).
  - rewrite Nat2Z.id. replace (Z.to_nat (Z.of_nat e + 1)) with (S e) by lia.
    apply Report.split_join.
    + inversion Hall as [|? ? [Ha _] _]; subst.
      assert (Hc : count_occ string_dec (newImportBlock (organize_block (a :: acc'))) a > 0).
      { rewrite Imports.count_block_line;
          [| left; reflexivity | apply Imports.import_line_nonempty, Ha].
        destruct (includes _ _); [destruct (import_type_eqb _ _)|]; lia. }
      intros E. apply app_eq_nil in E as [_ E]. apply app_eq_nil in E as [E _].
      rewrite E in Hc. cbn in Hc. lia.
    + pose proof (Report.split_nl_ok content) as Hok. fold L in Hok.
      apply Forall_app; split; [|apply Forall_app; split].
      * rewrite <- (firstn_skipn s L) in Hok. apply Forall_app in Hok. tauto.
      * eapply Forall_impl; [|exact Hblock]. intros b [->|Hb]; [reflexivity|].
        rewrite Forall_forall in Hall. destruct (Hall b Hb) as [_ [k [Hk' ->]]].
        apply Imports.has_nl_trim. rewrite Forall_forall in Hok. apply Hok, nth_In, Hk'.
      * rewrite <- (firstn_skipn (S e) L) in Hok. apply Forall_app in Hok. tauto.
Qed.

Lemma organize_imports_rewrite_witness :
  exists s e,
    s <= e < List.length (split_nl (String.concat nl ["import sys"; "x = 1"; "import os"])) /\
    is_import_line (trim (nth s (split_nl (String.concat nl
      ["import sys"; "x = 1"; "import os"])) "")) = true /\
    is_import_line (trim (nth e (split_nl (String.concat nl
      ["import sys"; "x = 1"; "import os"])) "")) = true /\
    (forall k, k < s -> is_import_line (trim (nth k (split_nl (String.concat nl
      ["import sys"; "x = 1"; "import os"])) "")) = false) /\
    Forall (fun b => b = ""%string \/ is_import_line b = true)
      (newImportBlock (organize_block ["import sys"; "import os"])) /\
    split_nl (String.concat nl ["import os"; "import sys"])
    = firstn s (split_nl (String.concat nl ["import sys"; "x = 1"; "import os"]))
      ++ newImportBlock (organize_block ["import sys"; "import os"])
      ++ skipn (S e) (split_nl (String.concat nl ["import sys"; "x = 1"; "import os"])).
Proof.
  apply (organize_imports_rewrite (String.concat nl ["import sys"; "x = 1"; "import os"])).
  vm_compute. reflexivity.
Defined.

(** *** [cc_cleanup_file] *)

Module Cleanup.

(** No space or tab whose run reaches the end of a line. *)
Fixpoint ws_clean (s : list N) : bool :=
  match s with
  | [] => true
  | c :: s' => negb (is_space_tab c && run_ends_line s') && ws_clean s'
  end.

Lemma list_len_ind (P : list N -> Prop) :
  (forall s, (forall t, List.length t < List.length s -> P t) -> P s) -> forall s, P s.
Proof.
  intros H s. remember (List.length s) as n eqn:E. revert s E.
  induction n as [n IH] using lt_wf_ind. intros s ->. apply H.
  intros t Ht. apply (IH _ Ht t eq_refl).
Qed.

Lemma run_strip s : run_ends_line (strip_trailing_ws s) = run_ends_line s.
Proof.
  induction s as [|c s IH]; [reflexivity|]. cbn [strip_trailing_ws].
  destruct (is_space_tab c && run_ends_line s) eqn:E; cbn [run_ends_line]; rewrite ?IH.
  - apply andb_true_iff in E as [-> ->]. reflexivity.
  - reflexivity.
Qed.

Lemma clean_strip s : ws_clean (strip_trailing_ws s) = true.
Proof.
  induction s as [|c s IH]; [reflexivity|]. cbn [strip_trailing_ws].
  destruct (is_space_tab c && run_ends_line s) eqn:E; [exact IH|].
  cbn [ws_clean]. rewrite run_strip, E, IH. reflexivity.
Qed.

Lemma strip_clean s : ws_clean s = true -> strip_trailing_ws s = s.
Proof.
  induction s as [|c s IH]; [reflexivity|]. cbn [ws_clean strip_trailing_ws].
  intros H. apply andb_true_iff in H as [H1 H2]. apply negb_true_iff in H1.
  rewrite H1, (IH H2). reflexivity.
Qed.

Lemma ws_clean_spec s :
  ws_clean s = true <->
  forall a c b, s = a ++ c :: b -> is_space_tab c = true -> run_ends_line b = false.
Proof.
  induction s as [|x s IH].
  - split; [|reflexivity]. intros _ a c b E. destruct a; discriminate E.
  - cbn [ws_clean]. rewrite andb_true_iff, negb_true_iff, IH. split.
    + intros [H1 H2] a c b E Hc. destruct a as [|y a]; cbn [app] in E; injection E as <- E.
      * subst s. rewrite Hc in H1. exact H1.
      * apply (H2 a c b E Hc).
    + intros H. split.
      * destruct (is_space_tab x) eqn:Ex; [|reflexivity]. apply (H [] x s eq_refl Ex).
      * intros a c b E Hc. apply (H (x :: a) c b); [rewrite E; reflexivity | exact Hc].
Qed.

Lemma lf_to_crlf_cons c s :
  lf_to_crlf (c :: s) = (if (c =? 10)%N then [13%N; 10%N] else [c]) ++ lf_to_crlf s.
Proof. reflexivity. Qed.

Lemma run_lf_to_crlf s : run_ends_line (lf_to_crlf s) = run_ends_line s.
Proof.
  induction s as [|c s IH]; [reflexivity|]. rewrite lf_to_crlf_cons.
  destruct (N.eqb_spec c 10) as [->|]; [reflexivity|].
  cbn [app run_ends_line]. rewrite IH. reflexivity.
Qed.

Lemma clean_lf_to_crlf s : ws_clean (lf_to_crlf s) = ws_clean s.
Proof.
  induction s as [|c s IH]; [reflexivity|]. rewrite lf_to_crlf_cons.
  destruct (N.eqb_spec c 10) as [->|].
  - cbn [app ws_clean]. rewrite IH. reflexivity.
  - cbn [app ws_clean]. rewrite run_lf_to_crlf, IH. reflexivity.
Qed.

Lemma crlf_to_lf_cons c s :
  crlf_to_lf (c :: s) =
  if (c =? 13)%N then
    match s with
    | d :: s'' => if (d =? 10)%N then 10%N :: crlf_to_lf s'' else c :: crlf_to_lf s
    | [] => [c]
    end
  else c :: crlf_to_lf s.
Proof. reflexivity. Qed.

Lemma run_crlf_to_lf s : run_ends_line (crlf_to_lf s) = run_ends_line s.
Proof.
  induction s as [s IH] using list_len_ind. destruct s as [|c s']; [reflexivity|].
  rewrite crlf_to_lf_cons. destruct (N.eqb_spec c 13) as [->|Hc].
  - destruct s' as [|d s'']; [reflexivity|]. destruct (N.eqb_spec d 10) as [->|]; reflexivity.
  - cbn [run_ends_line]. rewrite IH by (cbn [List.length]; lia). reflexivity.
Qed.

Lemma clean_crlf_to_lf s : ws_clean (crlf_to_lf s) = ws_clean s.
Proof.
  induction s as [s IH] using list_len_ind. destruct s as [|c s']; [reflexivity|].
  rewrite crlf_to_lf_cons. destruct (N.eqb_spec c 13) as [->|Hc].
  - destruct s' as [|d s'']; [reflexivity|]. destruct (N.eqb_spec d 10) as [->|].
    + cbn [ws_clean]. rewrite IH by (cbn [List.length]; lia). reflexivity.
    + cbn [ws_clean]. rewrite IH by (cbn [List.length]; lia). reflexivity.
  - cbn [ws_clean]. rewrite run_crlf_to_lf, IH by (cbn [List.length]; lia). reflexivity.
Qed.

Lemma lf_to_crlf_head s d t : lf_to_crlf s = d :: t -> d <> 10%N.
Proof.
  destruct s as [|c s]; [discriminate|]. rewrite lf_to_crlf_cons.
  destruct (N.eqb_spec c 10); cbn [app]; intros E; injection E as <- _; [discriminate | exact n].
Qed.

Lemma lf_to_crlf_nil s : lf_to_crlf s = [] -> s = [].
Proof.
  destruct s as [|c s]; [reflexivity|]. rewrite lf_to_crlf_cons.
  destruct (c =? 10)%N; discriminate.
Qed.

Lemma crlf_roundtrip s : crlf_to_lf (lf_to_crlf s) = s.
Proof.
  induction s as [|c s IH]; [reflexivity|]. rewrite lf_to_crlf_cons.
  destruct (N.eqb_spec c 10) as [->|Hc10].
  - cbn [app]. rewrite crlf_to_lf_cons. cbn [N.eqb Pos.eqb]. rewrite IH. reflexivity.
  - cbn [app]. rewrite crlf_to_lf_cons. destruct (N.eqb_spec c 13) as [->|].
    + destruct (lf_to_crlf s) as [|d t] eqn:E.
      * rewrite (lf_to_crlf_nil s E). reflexivity.
      * destruct (N.eqb_spec d 10) as [->|]; [exfalso; apply (lf_to_crlf_head s 10 t E); reflexivity|].
        rewrite ?E, IH. reflexivity.
    + rewrite IH. reflexivity.
Qed.

Lemma in_strip x s : In x (strip_trailing_ws s) -> In x s.
Proof.
  induction s as [|c s IH]; [auto|]. cbn [strip_trailing_ws].
  destruct (_ && _); [intros H; right; auto | intros [H|H]; [left; exact H | right; auto]].
Qed.

Lemma in_crlf_to_lf x s : In x (crlf_to_lf s) -> In x s.
Proof.
  induction s as [s IH] using list_len_ind. destruct s as [|c s']; [auto|].
  rewrite crlf_to_lf_cons. destruct (c =? 13)%N.
  - destruct s' as [|d s'']; [auto|]. destruct (N.eqb_spec d 10) as [->|].
    + intros [<-|H]; [right; left; reflexivity|].
      right; right. apply IH; [cbn [List.length]; lia | exact H].
    + intros [<-|H]; [left; reflexivity|]. right. apply IH; [cbn [List.length]; lia | exact H].
  - intros [<-|H]; [left; reflexivity|]. right. apply IH; [cbn [List.length]; lia | exact H].
Qed.

Lemma in_lf_to_crlf x s : In x (lf_to_crlf s) -> In x s \/ x = 13%N.
Proof.
  unfold lf_to_crlf. rewrite in_flat_map. intros [c [Hc Hx]].
  destruct (N.eqb_spec c 10) as [->|].
  - destruct Hx as [<-|[<-|[]]]; auto.
  - destruct Hx as [<-|[]]; auto.
Qed.

Lemma length_crlf_to_lf s : List.length (crlf_to_lf s) <= List.length s.
Proof.
  induction s as [s IH] using list_len_ind. destruct s as [|c s']; [auto|].
  rewrite crlf_to_lf_cons. destruct (c =? 13)%N.
  - destruct s' as [|d s'']; [auto|]. destruct (d =? 10)%N; cbn [List.length].
    + pose proof (IH s'' ltac:(cbn [List.length]; lia)). lia.
    + pose proof (IH (d :: s'') ltac:(cbn [List.length]; lia)). cbn [List.length] in *. lia.
  - cbn [List.length]. pose proof (IH s' ltac:(cbn [List.length]; lia)). lia.
Qed.

Lemma length_crlf_to_lf_lt a b :
  List.length (crlf_to_lf (a ++ 13%N :: 10%N :: b)) < List.length (a ++ 13%N :: 10%N :: b).
Proof.
  revert a. induction b as [s IH] using list_len_ind. intros a.
  (* recursion on [a], keeping the measure on the whole list *)
  enough (forall n a, List.length a <= n ->
            List.length (crlf_to_lf (a ++ 13%N :: 10%N :: s)) < List.length (a ++ 13%N :: 10%N :: s))
    by (apply (H (List.length a)); lia).
  clear a. induction n as [n IHn] using lt_wf_ind. intros a Ha.
  destruct a as [|c a].
  - cbn [app]. rewrite crlf_to_lf_cons. cbn [N.eqb Pos.eqb List.length].
    pose proof (length_crlf_to_lf s). lia.
  - cbn [app]. rewrite crlf_to_lf_cons. destruct (N.eqb_spec c 13) as [->|].
    + destruct a as [|d a].
      * cbn [app N.eqb Pos.eqb List.length]. rewrite crlf_to_lf_cons.
        cbn [N.eqb Pos.eqb List.length]. pose proof (length_crlf_to_lf s). lia.
      * cbn [app]. destruct (N.eqb_spec d 10) as [->|].
        -- cbn [List.length]. pose proof (length_crlf_to_lf (a ++ 13%N :: 10%N :: s)). lia.
        -- cbn [List.length]. cbn [List.length] in Ha.
           pose proof (IHn (n - 1) ltac:(lia) (d :: a) ltac:(cbn [List.length]; lia)).
           cbn [app List.length] in H. lia.
    + cbn [List.length]. cbn [List.length] in Ha.
      pose proof (IHn (n - 1) ltac:(lia) a ltac:(lia)). lia.
Qed.

(** The stages of the tool, one function each. *)
Definition bom_step (p : cleanup_params) (s : list N) : list N :=
  if remove_bom p then
    match s with c :: r => if (c =? 65279)%N then r else s | [] => s end
  else s.

Definition nul_step (p : cleanup_params) (s : list N) : list N :=
  if remove_nul_bytes p && existsb (N.eqb 0) s then filter (fun c => negb (c =? 0)%N) s else s.

Definition ws_step (p : cleanup_params) (s : list N) : list N :=
  if remove_trailing_whitespace p then strip_trailing_ws s else s.

Definition eol_step (p : cleanup_params) (s : list N) : list N :=
  match normalize_line_endings p with
  | None => s
  | Some LF => crlf_to_lf s
  | Some CRLF => lf_to_crlf (crlf_to_lf s)
  end.

Lemma cleanup_out p raw :
  snd (cc_cleanup_file_apply p raw) = eol_step p (ws_step p (nul_step p (bom_step p raw))).
Proof.
  unfold cc_cleanup_file_apply, bom_step, nul_step, ws_step, eol_step.
  destruct (remove_bom p); [destruct raw as [|c r]; [|destruct (c =? 65279)%N]|];
    cbv beta iota zeta;
    match goal with |- context [remove_nul_bytes p && ?x] =>
      destruct (remove_nul_bytes p && x) end; cbv beta iota zeta;
    destruct (remove_trailing_whitespace p); cbv beta iota zeta;
    destruct (normalize_line_endings p) as [[]|]; reflexivity.
Qed.

Lemma existsb_zero s : existsb (N.eqb 0) s = false <-> ~ In 0%N s.
Proof.
  rewrite <- not_true_iff_false, existsb_exists. split.
  - intros H Hin. apply H. exists 0%N. split; [exact Hin | reflexivity].
  - intros H [x [Hx E]]. apply N.eqb_eq in E. subst x. contradiction.
Qed.

Lemma no_nul_out p raw : remove_nul_bytes p = true -> ~ In 0%N (snd (cc_cleanup_file_apply p raw)).
Proof.
  intros Hp. rewrite cleanup_out.
  assert (H : ~ In 0%N (nul_step p (bom_step p raw))).
  { unfold nul_step. rewrite Hp. cbn [andb].
    destruct (existsb (N.eqb 0) (bom_step p raw)) eqn:E.
    - rewrite filter_In. intros [_ H]. discriminate H.
    - apply existsb_zero, E. }
  intros Hin. apply H. unfold eol_step, ws_step in Hin.
  destruct (normalize_line_endings p) as [[]|];
    [ | apply in_lf_to_crlf in Hin as [Hin|Hin]; [|discriminate Hin] | ];
    try apply in_crlf_to_lf in Hin;
    (destruct (remove_trailing_whitespace p); [apply in_strip in Hin|]); exact Hin.
Qed.

Lemma clean_out p raw :
  remove_trailing_whitespace p = true -> ws_clean (snd (cc_cleanup_file_apply p raw)) = true.
Proof.
  intros Hp. rewrite cleanup_out. unfold eol_step, ws_step. rewrite Hp.
  destruct (normalize_line_endings p) as [[]|];
    rewrite ?clean_lf_to_crlf, ?clean_crlf_to_lf; apply clean_strip.
Qed.

(** A content on which every enabled stage changes nothing. *)
Lemma cleanup_clean p s :
  (remove_bom p = true -> hd 0%N s <> 65279%N) ->
  (remove_nul_bytes p = true -> ~ In 0%N s) ->
  (remove_trailing_whitespace p = true -> ws_clean s = true) ->
  eol_step p s = s ->
  cc_cleanup_file_apply p s = ([], s).
Proof.
  intros Hb Hn Hw He. unfold cc_cleanup_file_apply.
  assert (E1 : (if remove_bom p then
                  match s with c :: rest => if (c =? 65279)%N then (rest, [fixBomRemoved])
                                             else (s, []) | [] => (s, []) end
                else (s, [])) = (s, [])).
  { destruct (remove_bom p); [|reflexivity]. destruct s as [|c r]; [reflexivity|].
    destruct (N.eqb_spec c 65279) as [->|]; [|reflexivity].
    exfalso. apply (Hb eq_refl). reflexivity. }
  rewrite E1. cbv beta iota zeta.
  assert (E2 : remove_nul_bytes p && existsb (N.eqb 0) s = false).
  { destruct (remove_nul_bytes p); [|reflexivity]. apply existsb_zero, Hn, eq_refl. }
  rewrite E2. cbv beta iota zeta.
  assert (E3 : (if remove_trailing_whitespace p then
                  (strip_trailing_ws s,
                   if units_eqb (strip_trailing_ws s) s then [] else [fixTrailingWhitespace])
                else (s, [])) = (s, [])).
  { destruct (remove_trailing_whitespace p); [|reflexivity].
    rewrite (strip_clean s (Hw eq_refl)). unfold units_eqb.
    destruct (list_eq_dec N.eq_dec s s); [reflexivity | contradiction]. }
  rewrite E3. cbv beta iota zeta.
  unfold eol_step in He. destruct (normalize_line_endings p) as [[]|]; [| |reflexivity];
    rewrite He; unfold units_eqb; (destruct (list_eq_dec N.eq_dec s s); [reflexivity | contradiction]).
Qed.

Lemma lf_to_crlf_lf s : forall a b, lf_to_crlf s = a ++ 10%N :: b -> exists a', a = a' ++ [13%N].
Proof.
  induction s as [|c s IH]; intros a b E; [destruct a; discriminate E|].
  rewrite lf_to_crlf_cons in E. destruct (N.eqb_spec c 10) as [->|Hc].
  - destruct a as [|x [|y a]]; cbn [app] in E; inversion E; subst.
    + exists []. reflexivity.
    + match goal with H : lf_to_crlf s = _ |- _ => destruct (IH _ _ H) as [a' ->] end.
      exists (13%N :: 10%N :: a'). reflexivity.
  - destruct a as [|x a]; cbn [app] in E; inversion E; subst; [contradiction|].
    match goal with H : lf_to_crlf s = _ |- _ => destruct (IH _ _ H) as [a' ->] end.
    exists (x :: a'). reflexivity.
Qed.

Lemma in_bom p s x : In x (bom_step p s) -> In x s.
Proof.
  unfold bom_step. destruct (remove_bom p); [|auto].
  destruct s as [|c r]; [auto|]. destruct (c =? 65279)%N; [right; auto | auto].
Qed.

Lemma length_bom p s : List.length (bom_step p s) <= List.length s.
Proof.
  unfold bom_step. destruct (remove_bom p); [|auto].
  destruct s as [|c r]; [auto|]. destruct (c =? 65279)%N; cbn [List.length]; lia.
Qed.

Lemma clean_bom p s : ws_clean s = true -> ws_clean (bom_step p s) = true.
Proof.
  unfold bom_step. destruct (remove_bom p); [|auto].
  destruct s as [|c r]; [auto|]. destruct (c =? 65279)%N; [|auto].
  cbn [ws_clean]. intros H. apply andb_true_iff in H. tauto.
Qed.

(** The line-ending fix is reported when that stage changes the content. *)
Lemma fix_eol_in p s e :
  normalize_line_endings p = Some e ->
  eol_step p (ws_step p (nul_step p (bom_step p s))) <> ws_step p (nul_step p (bom_step p s)) ->
  In (fixLineEndings e) (fst (cc_cleanup_file_apply p s)).
Proof.
  intros He. unfold cc_cleanup_file_apply, bom_step, nul_step, ws_step, eol_step. rewrite He.
  destruct (remove_bom p); [destruct s as [|c r]; [|destruct (c =? 65279)%N]|];
    cbv beta iota zeta;
    match goal with |- context [remove_nul_bytes p && ?x] =>
      destruct (remove_nul_bytes p && x) end; cbv beta iota zeta;
    destruct (remove_trailing_whitespace p); cbv beta iota zeta;
    destruct e; unfold units_eqb;
    repeat match goal with |- context [list_eq_dec N.eq_dec ?x ?y] =>
      destruct (list_eq_dec N.eq_dec x y) end;
    intros H; try contradiction; cbn [fst];
    apply in_or_app; right; apply in_or_app; right; apply in_or_app; right; apply in_eq.
Qed.

End Cleanup.

(** Extra (cc_cleanup_file): turning every LF into CR LF and then every
    CR LF back into LF gives the content back. *)
Theorem cleanup_crlf_roundtrip s : crlf_to_lf (lf_to_crlf s) = s.
Proof. apply Cleanup.crlf_roundtrip. Qed.

(** Extra (cc_cleanup_file): with [normalize_line_endings = "crlf"], every
    LF of the resulting content comes right after a CR. *)
Theorem cleanup_crlf_no_bare_lf p raw a b :
  normalize_line_endings p = Some CRLF ->
  snd (cc_cleanup_file_apply p raw) = a ++ 10%N :: b ->
  exists a', a = a' ++ [13%N].
Proof.
  intros Hp. rewrite Cleanup.cleanup_out. unfold Cleanup.eol_step. rewrite Hp.
  apply Cleanup.lf_to_crlf_lf.
Qed.

Lemma cleanup_crlf_no_bare_lf_witness :
  exists a', [97%N; 13%N] = a' ++ [13%N].
Proof.
  apply (cleanup_crlf_no_bare_lf (mkCleanupParams true true (Some CRLF) true)
           [97%N; 10%N; 98%N] [97%N; 13%N] [98%N]); [reflexivity | vm_compute; reflexivity].
Defined.

(** Extra (cc_cleanup_file): with [remove_nul_bytes], the resulting content
    has no NUL code unit. *)
Theorem cleanup_no_nul p raw :
  remove_nul_bytes p = true -> ~ In 0%N (snd (cc_cleanup_file_apply p raw)).
Proof. apply Cleanup.no_nul_out. Qed.

Lemma cleanup_no_nul_witness :
  ~ In 0%N (snd (cc_cleanup_file_apply (mkCleanupParams false false None true)
                   [97%N; 0%N; 98%N; 0%N])).
Proof. apply cleanup_no_nul. reflexivity. Defined.

(** Extra (cc_cleanup_file): with [remove_trailing_whitespace], no space or
    tab of the resulting content starts a run of spaces and tabs that is
    followed by a line terminator or by the end of the content, whatever the
    line-ending mode. *)
Theorem cleanup_no_trailing_ws p raw a c b :
  remove_trailing_whitespace p = true ->
  snd (cc_cleanup_file_apply p raw) = a ++ c :: b ->
  is_space_tab c = true -> run_ends_line b = false.
Proof.
  intros Hp. apply Cleanup.ws_clean_spec, Cleanup.clean_out, Hp.
Qed.

Lemma cleanup_no_trailing_ws_witness : run_ends_line [98%N; 13%N; 10%N] = false.
Proof.
  apply (cleanup_no_trailing_ws (mkCleanupParams true true (Some CRLF) true)
           [97%N; 32%N; 98%N; 32%N; 9%N; 10%N] [97%N] 32%N [98%N; 13%N; 10%N]);
    [reflexivity | vm_compute; reflexivity | reflexivity].
Defined.

(** Extra (cc_cleanup_file): unless [normalize_line_endings] is ["lf"], a
    second run on the resulting content reports no fix and leaves it as it
    is, provided that content does not start with a BOM when [remove_bom] is
    set. *)
Theorem cleanup_idempotent p raw :
  normalize_line_endings p <> Some LF ->
  (remove_bom p = true -> hd 0%N (snd (cc_cleanup_file_apply p raw)) <> 65279%N) ->
  cc_cleanup_file_apply p (snd (cc_cleanup_file_apply p raw))
  = ([], snd (cc_cleanup_file_apply p raw)).
Proof.
  intros Hle Hb. apply Cleanup.cleanup_clean.
  - exact Hb.
  - apply Cleanup.no_nul_out.
  - apply Cleanup.clean_out.
  - rewrite Cleanup.cleanup_out. unfold Cleanup.eol_step.
    destruct (normalize_line_endings p) as [[]|];
      [congruence | rewrite Cleanup.crlf_roundtrip; reflexivity | reflexivity].
Qed.

Lemma cleanup_idempotent_witness :
  cc_cleanup_file_apply (mkCleanupParams true true (Some CRLF) true)
    (snd (cc_cleanup_file_apply (mkCleanupParams true true (Some CRLF) true)
            [65279%N; 97%N; 32%N; 10%N; 0%N; 98%N]))
  = ([], snd (cc_cleanup_file_apply (mkCleanupParams true true (Some CRLF) true)
               [65279%N; 97%N; 32%N; 10%N; 0%N; 98%N])).
Proof.
  apply cleanup_idempotent; [discriminate | intros _; vm_compute; discriminate].
Defined.

(** Extra (cc_cleanup_file): with [normalize_line_endings = "lf"], when the
    resulting content still holds a CR LF (as CR CR LF leaves one), a second
    run reports the line-ending fix again and changes the content. *)
Theorem cleanup_lf_second_run p raw a b :
  normalize_line_endings p = Some LF ->
  snd (cc_cleanup_file_apply p raw) = a ++ 13%N :: 10%N :: b ->
  In (fixLineEndings LF) (fst (cc_cleanup_file_apply p (snd (cc_cleanup_file_apply p raw)))) /\
  snd (cc_cleanup_file_apply p (snd (cc_cleanup_file_apply p raw)))
  <> snd (cc_cleanup_file_apply p raw).
Proof.
  intros He Hout.
  pose proof (Cleanup.no_nul_out p raw) as Hnul0.
  pose proof (Cleanup.clean_out p raw) as Hws0.
  remember (snd (cc_cleanup_file_apply p raw)) as out eqn:Eout.
  assert (Hs1 : exists a1, Cleanup.bom_step p out = a1 ++ 13%N :: 10%N :: b).
  { unfold Cleanup.bom_step. destruct (remove_bom p); [|exists a; exact Hout].
    rewrite Hout. destruct a as [|c a'].
    - exists []. reflexivity.
    - cbn [app]. destruct (c =? 65279)%N; [exists a'; reflexivity | exists (c :: a'); reflexivity]. }
  assert (Hnul : Cleanup.nul_step p (Cleanup.bom_step p out) = Cleanup.bom_step p out).
  { unfold Cleanup.nul_step. destruct (remove_nul_bytes p) eqn:Hn; [|reflexivity].
    cbn [andb]. rewrite (proj2 (Cleanup.existsb_zero _)); [reflexivity|].
    intros Hin. apply (Hnul0 eq_refl), (Cleanup.in_bom p), Hin. }
  assert (Hws : Cleanup.ws_step p (Cleanup.bom_step p out) = Cleanup.bom_step p out).
  { unfold Cleanup.ws_step. destruct (remove_trailing_whitespace p) eqn:Hw; [|reflexivity].
    apply Cleanup.strip_clean, Cleanup.clean_bom, Hws0, eq_refl. }
  pose proof (Cleanup.length_bom p out) as Hlen.
  destruct Hs1 as [a1 Hs1].
  pose proof (Cleanup.length_crlf_to_lf_lt a1 b) as Hlt.
  split.
  - apply (Cleanup.fix_eol_in p out LF He). rewrite Hnul, Hws.
    unfold Cleanup.eol_step. rewrite He, Hs1. intros E.
    rewrite E in Hlt. lia.
  - rewrite Cleanup.cleanup_out, Hnul, Hws. unfold Cleanup.eol_step. rewrite He, Hs1.
    intros E. rewrite E, <- Hs1 in Hlt. lia.
Qed.

Lemma cleanup_lf_second_run_witness :
  In (fixLineEndings LF)
     (fst (cc_cleanup_file_apply (mkCleanupParams true true (Some LF) true)
            (snd (cc_cleanup_file_apply (mkCleanupParams true true (Some LF) true)
                    [13%N; 13%N; 10%N])))) /\
  snd (cc_cleanup_file_apply (mkCleanupParams true true (Some LF) true)
         (snd (cc_cleanup_file_apply (mkCleanupParams true true (Some LF) true)
                 [13%N; 13%N; 10%N])))
  <> snd (cc_cleanup_file_apply (mkCleanupParams true true (Some LF) true) [13%N; 13%N; 10%N]).
Proof.
  apply (cleanup_lf_second_run (mkCleanupParams true true (Some LF) true)
           [13%N; 13%N; 10%N] [] []); [reflexivity | vm_compute; reflexivity].
Defined.

(** *** [cc_fix_encoding] and [cc_fix_umlauts] *)

Module Replace.

(** The pattern [m] matches somewhere in [s]. *)
Definition hits (m : list N -> option nat) (s : list N) : Prop :=
  exists a b, s = a ++ b /\ m b <> None.

Lemma hits_suffix m a t : hits m t -> hits m (a ++ t).
Proof.
  intros [x [y [-> H]]]. exists (a ++ x), y. split; [rewrite app_assoc; reflexivity | exact H].
Qed.

Lemma hits_skipn m k t : hits m (skipn k t) -> hits m t.
Proof. intros H. rewrite <- (firstn_skipn k t). apply hits_suffix, H. Qed.

Lemma replace_skip m r k s : replace_from m r k s = replace_from m r 0 (skipn k s).
Proof.
  revert k; induction s as [|c s IH]; intros k; [destruct k; reflexivity|].
  destruct k as [|k]; [reflexivity|]. cbn [replace_from skipn]. apply IH.
Qed.

Lemma count_skip m k s : count_from m k s = count_from m 0 (skipn k s).
Proof.
  revert k; induction s as [|c s IH]; intros k; [destruct k; reflexivity|].
  destruct k as [|k]; [reflexivity|]. cbn [count_from skipn]. apply IH.
Qed.

Lemma replace_no_match m r c s :
  match m (c :: s) with Some (S _) => False | _ => True end ->
  replace_all m r (c :: s) = c :: replace_all m r s.
Proof.
  unfold replace_all. cbn [replace_from]. destruct (m (c :: s)) as [[|k]|]; tauto.
Qed.

(** A pass whose pattern finds nothing changes nothing. *)
Lemma no_hits_id m r s : ~ hits m s -> replace_all m r s = s.
Proof.
  unfold replace_all. induction s as [|c s IH]; intros H; [reflexivity|].
  cbn [replace_from]. destruct (m (c :: s)) as [[|k]|] eqn:E.
  - rewrite IH; [reflexivity|]. intros H'. apply H, (hits_suffix m [c]), H'.
  - exfalso. apply H. exists [], (c :: s). split; [reflexivity | congruence].
  - rewrite IH; [reflexivity|]. intros H'. apply H, (hits_suffix m [c]), H'.
Qed.

(** Replacing a character by itself. *)
Lemma literal_id x s : replace_all (literal [x]) [x] s = s.
Proof.
  unfold replace_all. induction s as [|c s IH]; [reflexivity|].
  cbn [replace_from].
  replace (literal [x] (c :: s)) with (if N.eqb x c then Some 1 else None)
    by (unfold literal; cbn; destruct (x =? c)%N; reflexivity).
  destruct (N.eqb_spec x c) as [->|]; cbn [app]; rewrite IH; reflexivity.
Qed.

Lemma prefixb_spec pat s : prefixb pat s = true <-> firstn (List.length pat) s = pat.
Proof.
  revert s; induction pat as [|a pat IH]; intros s; [split; intros; reflexivity|].
  destruct s as [|b s]; cbn [prefixb List.length firstn]; [split; discriminate|].
  rewrite andb_true_iff, IH. split.
  - intros [E ->]. apply N.eqb_eq in E. subst. reflexivity.
  - intros E. injection E as Ea Ef. rewrite Ea. split; [apply N.eqb_refl | exact Ef].
Qed.

Section Window.

(** The code units a match may span. *)
Variable P : N -> bool.

(** A pattern whose matches are non-empty, span only code units satisfying
    [P], and are decided by the first [w] code units. *)
Definition window_matcher (w : nat) (m : list N -> option nat) : Prop :=
  0 < w /\
  (forall s, m s <> Some 0) /\
  (forall s, m s <> None -> s <> [] /\ Forall (fun x => P x = true) (firstn w s)) /\
  (forall s t, firstn w s = firstn w t -> m s = m t).

(** A replacement made of code units no match may span. *)
Definition good_rep (r : list N) : Prop := r <> [] /\ Forall (fun x => P x = false) r.

Lemma prefix_keep m r s j : good_rep r ->
  Forall (fun x => P x = true) (firstn j (replace_all m r s)) ->
  firstn j (replace_all m r s) = firstn j s.
Proof.
  intros [Hr HrP]. unfold replace_all. revert j.
  induction s as [|c s IH]; intros j H; [destruct j; reflexivity|].
  destruct j as [|j]; [reflexivity|].
  cbn [replace_from] in H |- *. destruct (m (c :: s)) as [[|k]|] eqn:E.
  - cbn [firstn] in H |- *. inversion H; subst. f_equal. apply IH; assumption.
  - destruct r as [|y r']; [contradiction|]. cbn [app firstn] in H. inversion H; subst.
    inversion HrP; subst. congruence.
  - cbn [firstn] in H |- *. inversion H; subst. f_equal. apply IH; assumption.
Qed.

Lemma rep_split w m r X a b :
  window_matcher w m -> good_rep r -> r ++ X = a ++ b -> m b <> None ->
  exists a', X = a' ++ b.
Proof.
  intros (Hw & _ & H2 & _) (Hrne & HrP) E Hb.
  apply app_eq_app in E as [l [[Er Eb] | [Ea Et]]].
  - destruct l as [|y l].
    + exists []. rewrite app_nil_r in Er. rewrite Eb. reflexivity.
    + exfalso. subst r b. destruct (H2 _ Hb) as [_ HP].
      destruct w as [|w]; [lia|]. cbn [app firstn] in HP. inversion HP as [|? ? Hy]; subst.
      rewrite Forall_app in HrP. destruct HrP as [_ HrP]. inversion HrP; subst. congruence.
  - exists l. exact Et.
Qed.

(** After its own pass, a pattern matches nowhere. *)
Lemma own_pass w m r s : window_matcher w m -> good_rep r -> ~ hits m (replace_all m r s).
Proof.
  intros Hm Hr. pose proof Hm as (Hw & H0 & H2 & H3).
  induction s as [s IH] using Cleanup.list_len_ind.
  destruct s as [|c s'].
  - intros [a [b [E Hb]]]. cbn in E. symmetry in E. apply app_eq_nil in E as [_ ->].
    destruct (H2 [] Hb) as [Hne _]. contradiction.
  - intros [a [b [E Hb]]]. destruct (m (c :: s')) as [[|k]|] eqn:Em.
    + exact (H0 _ Em).
    + unfold replace_all in E. cbn [replace_from] in E. rewrite Em, replace_skip in E.
      destruct (rep_split w m r _ a b Hm Hr E Hb) as [a' Ea'].
      apply (IH (skipn k s')); [rewrite length_skipn; cbn [List.length]; lia|].
      exists a', b. split; [exact Ea' | exact Hb].
    + rewrite replace_no_match in E by (rewrite Em; exact I).
      destruct a as [|y a].
      * cbn [app] in E. destruct (H2 b Hb) as [_ HP].
        assert (Hk : firstn w b = firstn w (c :: s')).
        { rewrite <- E, <- replace_no_match by (rewrite Em; exact I).
          apply (prefix_keep m r (c :: s') w Hr).
          rewrite replace_no_match by (rewrite Em; exact I). rewrite E. exact HP. }
        apply Hb. rewrite (H3 _ _ Hk). exact Em.
      * cbn [app] in E. injection E as _ E.
        apply (IH s'); [cbn [List.length]; lia|]. exists a, b. split; [exact E | exact Hb].
Qed.

(** A pass with a replacement outside [P] creates no match of a pattern
    spanning only [P]. *)
Lemma preserve w m m' r s : window_matcher w m -> good_rep r ->
  hits m (replace_all m' r s) -> hits m s.
Proof.
  intros Hm Hr. pose proof Hm as (Hw & H0 & H2 & H3).
  induction s as [s IH] using Cleanup.list_len_ind.
  destruct s as [|c s']; [intros H; exact H|].
  intros [a [b [E Hb]]]. destruct (m' (c :: s')) as [[|k]|] eqn:Em.
  2: { unfold replace_all in E. cbn [replace_from] in E. rewrite Em, replace_skip in E.
       destruct (rep_split w m r _ a b Hm Hr E Hb) as [a' Ea'].
       apply (hits_suffix m [c]), (hits_skipn m k).
       apply (IH (skipn k s')); [rewrite length_skipn; cbn [List.length]; lia|].
       exists a', b. split; [exact Ea' | exact Hb]. }
  all: rewrite replace_no_match in E by (rewrite Em; exact I).
  all: destruct a as [|y a].
  1, 3: cbn [app] in E; destruct (H2 b Hb) as [_ HP];
    assert (Hk : firstn w b = firstn w (c :: s'))
      by (rewrite <- E, <- replace_no_match by (rewrite Em; exact I);
          apply (prefix_keep m' r (c :: s') w Hr);
          rewrite replace_no_match by (rewrite Em; exact I); rewrite E; exact HP);
    exists [], (c :: s'); split; [reflexivity | rewrite <- (H3 _ _ Hk); exact Hb].
  all: cbn [app] in E; injection E as _ E;
    apply (hits_suffix m [c]), (IH s'); [cbn [List.length]; lia|];
    exists a, b; split; [exact E | exact Hb].
Qed.

Lemma window_literal pat : pat <> [] -> forallb P pat = true ->
  window_matcher (List.length pat) (literal pat).
Proof.
  intros Hne HP. unfold window_matcher, literal. split; [|split; [|split]].
  - destruct pat; [contradiction | cbn [List.length]; lia].
  - intros s. destruct (prefixb pat s); [destruct pat; [contradiction|]; discriminate | discriminate].
  - intros s H. destruct (prefixb pat s) eqn:E2; [|congruence].
    apply prefixb_spec in E2. split.
    + intros ->. destruct pat; [contradiction | discriminate].
    + rewrite E2. apply Forall_forall. intros x Hx.
      exact (proj1 (forallb_forall P pat) HP x Hx).
  - intros s t E. assert (Eq : prefixb pat s = prefixb pat t).
    { apply Bool.eq_iff_eq_true. rewrite !prefixb_spec, E. reflexivity. }
    rewrite Eq. reflexivity.
Qed.

(** A table entry: a replacement outside [P], and either a pattern of the
    kind above or the replacement of a character by itself. *)
Definition pass_ok (e : (list N -> option nat) * list N * list N) : Prop :=
  let '(m, r, _) := e in
  good_rep r /\ ((exists w, window_matcher w m) \/ (exists x, m = literal [x] /\ r = [x])).

(** An entry with nothing left to replace in [s]. *)
Definition cleared (s : list N) (e : (list N -> option nat) * list N * list N) : Prop :=
  let '(m, r, _) := e in (exists x, m = literal [x] /\ r = [x]) \/ ~ hits m s.

Lemma apply_cons m r l tbl s :
  snd (apply_replacements ((m, r, l) :: tbl) s) = snd (apply_replacements tbl (replace_all m r s)).
Proof.
  cbn [apply_replacements]. destruct (apply_replacements tbl (replace_all m r s)). reflexivity.
Qed.

Lemma preserve_fold tbl : Forall pass_ok tbl -> forall w m s,
  window_matcher w m -> ~ hits m s -> ~ hits m (snd (apply_replacements tbl s)).
Proof.
  induction tbl as [|[[m' r] l] tbl IH]; intros Hall w m s Hm Hs; [exact Hs|].
  inversion Hall as [|? ? Hp Hall']; subst; destruct Hp as [Hr _]. rewrite apply_cons.
  apply (IH Hall' w m); [exact Hm|]. intros H. apply Hs, (preserve w m m' r s Hm Hr H).
Qed.

Lemma clear_fold tbl : Forall pass_ok tbl -> forall s,
  Forall (cleared (snd (apply_replacements tbl s))) tbl.
Proof.
  induction tbl as [|[[m r] l] tbl IH]; intros Hall s; [constructor|].
  inversion Hall as [|? ? Hp Hall']; subst; destruct Hp as [Hr Hk]. rewrite apply_cons. constructor.
  - destruct Hk as [[w Hw] | Hid]; [right | left; exact Hid].
    apply (preserve_fold tbl Hall' w m); [exact Hw | apply (own_pass w m r s Hw Hr)].
  - apply IH, Hall'.
Qed.

(** With every entry cleared, a run reports nothing and changes nothing. *)
Lemma second_run tbl s : Forall (cleared s) tbl -> apply_replacements tbl s = ([], s).
Proof.
  induction tbl as [|[[m r] l] tbl IH]; intros H; [reflexivity|].
  inversion H as [|? ? Hh Ht]; subst. cbn [apply_replacements].
  assert (E : replace_all m r s = s).
  { destruct Hh as [[x [-> ->]] | Hn]; [apply literal_id | apply no_hits_id, Hn]. }
  rewrite E, (IH Ht). unfold units_eqb.
  destruct (list_eq_dec N.eq_dec s s); [reflexivity | contradiction].
Qed.

Lemma table_idempotent tbl s : Forall pass_ok tbl ->
  apply_replacements tbl (snd (apply_replacements tbl s)) = ([], snd (apply_replacements tbl s)).
Proof. intros H. apply second_run, clear_fold, H. Qed.

End Window.

(** The code units outside the replacements of a table. *)
Definition not_in (R : list N) (x : N) : bool := negb (existsb (N.eqb x) R).

Definition umlaut_chars : list N := flat_map snd umlautFixes.

Definition encoding_chars : list N := flat_map (fun e => snd (fst e)) mojibakeMap.

Lemma not_in_below R c : forallb (N.ltb 122) R = true -> (c <= 122)%N -> not_in R c = true.
Proof.
  intros HR Hc. unfold not_in. destruct (existsb (N.eqb c) R) eqn:E; [|reflexivity].
  apply existsb_exists in E as [x [Hx Ex]]. apply N.eqb_eq in Ex. subst x.
  rewrite forallb_forall in HR. specialize (HR _ Hx). apply N.ltb_lt in HR. lia.
Qed.

Lemma window_ae : window_matcher (not_in umlaut_chars) 3 ae_before_lower.
Proof.
  unfold window_matcher. split; [lia|split; [|split]].
  - intros [|a [|e [|c t]]]; cbn [ae_before_lower]; try discriminate.
    destruct (_ && _); discriminate.
  - intros [|a [|e [|c t]]] H; cbn [ae_before_lower] in H; try congruence.
    destruct ((a =? 97)%N && (e =? 101)%N && (97 <=? c)%N && (c <=? 122)%N) eqn:E; [|congruence].
    apply andb_true_iff in E as [E Hc2]. apply andb_true_iff in E as [E Hc1].
    apply andb_true_iff in E as [Ha He].
    apply N.eqb_eq in Ha, He. apply N.leb_le in Hc1, Hc2. subst a e.
    split; [discriminate|]. cbn [firstn].
    repeat constructor. apply not_in_below; [reflexivity | exact Hc2].
  - intros s t E.
    destruct s as [|a [|e [|c s]]]; destruct t as [|a' [|e' [|c' t]]];
      cbn [firstn] in E; try discriminate E; inversion E; subst; reflexivity.
Qed.

Ltac entry_ok :=
  split; [split; [discriminate | repeat constructor]
         | first [ right; eexists; split; reflexivity
                 | left; eexists; apply window_literal; [discriminate | reflexivity]
                 | left; eexists; apply window_ae ]].

Lemma umlaut_table_ok :
  Forall (pass_ok (not_in umlaut_chars))
    (map (fun '(pattern, replacement) => (pattern, replacement, replacement)) umlautFixes).
Proof.
  unfold umlautFixes. cbn [map].
  repeat (apply Forall_cons; [entry_ok|]). apply Forall_nil.
Qed.

Lemma encoding_table_ok : Forall (pass_ok (not_in encoding_chars)) mojibakeMap.
Proof.
  unfold mojibakeMap. repeat (apply Forall_cons; [entry_ok|]). apply Forall_nil.
Qed.

Lemma literal_len pat t k :
  literal pat t = Some k -> k = List.length pat /\ List.length pat <= List.length t.
Proof.
  unfold literal. destruct (prefixb pat t) eqn:E; [|discriminate].
  intros H. injection H as <-. split; [reflexivity|].
  apply prefixb_spec in E. rewrite <- E at 1. rewrite length_firstn. lia.
Qed.

(** A pass replacing matches of two code units by one character. *)
Lemma count_len_eq m r s : List.length r = 1 ->
  (forall t k, m t = Some k -> k = 2 /\ 2 <= List.length t) ->
  List.length (replace_all m r s) + count_matches m s = List.length s.
Proof.
  intros Hr Hm. unfold replace_all, count_matches.
  induction s as [s IH] using Cleanup.list_len_ind.
  destruct s as [|c s']; [reflexivity|].
  cbn [replace_from count_from]. destruct (m (c :: s')) as [[|k]|] eqn:E.
  - pose proof (IH s' ltac:(cbn [List.length]; lia)). cbn [List.length]. lia.
  - destruct (Hm _ _ E) as [Ek Hl]. cbn [List.length] in Hl.
    rewrite (replace_skip m r k s'), (count_skip m k s'), length_app.
    pose proof (IH (skipn k s') ltac:(rewrite length_skipn; cbn [List.length]; lia)).
    rewrite length_skipn in *. cbn [List.length]. lia.
  - pose proof (IH s' ltac:(cbn [List.length]; lia)). cbn [List.length]. lia.
Qed.

(** A pass replacing matches of at least two code units by one character. *)
Lemma count_len_le m r s : List.length r = 1 ->
  (forall t k, m t = Some k -> 2 <= k <= List.length t) ->
  List.length (replace_all m r s) + count_matches m s <= List.length s.
Proof.
  intros Hr Hm. unfold replace_all, count_matches.
  induction s as [s IH] using Cleanup.list_len_ind.
  destruct s as [|c s']; [reflexivity|].
  cbn [replace_from count_from]. destruct (m (c :: s')) as [[|k]|] eqn:E.
  - pose proof (IH s' ltac:(cbn [List.length]; lia)). cbn [List.length]. lia.
  - destruct (Hm _ _ E) as [Ek Hl]. cbn [List.length] in Hl.
    rewrite (replace_skip m r k s'), (count_skip m k s'), length_app.
    pose proof (IH (skipn k s') ltac:(rewrite length_skipn; cbn [List.length]; lia)).
    rewrite length_skipn in *. cbn [List.length]. lia.
  - pose proof (IH s' ltac:(cbn [List.length]; lia)). cbn [List.length]. lia.
Qed.

Lemma fixes_app_sum (fs fs' : list (list N * nat)) :
  list_sum (map snd (fs ++ fs')) = list_sum (map snd fs) + list_sum (map snd fs').
Proof. rewrite map_app, list_sum_app. reflexivity. Qed.

Lemma fold_len_eq tbl : Forall (fun e : (list N -> option nat) * list N * list N =>
    let '(m, r, _) := e in
    List.length r = 1 /\ forall t k, m t = Some k -> k = 2 /\ 2 <= List.length t) tbl ->
  forall s, List.length s = List.length (snd (apply_replacements tbl s))
                            + list_sum (map snd (fst (apply_replacements tbl s))).
Proof.
  induction tbl as [|[[m r] l] tbl IH]; intros H s; [cbn; lia|].
  inversion H as [|? ? Hp Ht]; subst. destruct Hp as [Hr Hm].
  specialize (IH Ht (replace_all m r s)). pose proof (count_len_eq m r s Hr Hm) as Hc.
  cbn [apply_replacements].
  destruct (apply_replacements tbl (replace_all m r s)) as [fs out] eqn:Ea.
  rewrite ?Ea in IH. cbn [fst snd] in IH |- *.
  rewrite fixes_app_sum. unfold units_eqb.
  destruct (list_eq_dec N.eq_dec (replace_all m r s) s) as [Eq|Ne].
  - rewrite Eq in IH. cbn [map list_sum fold_right]. lia.
  - cbn [map list_sum fold_right snd]. lia.
Qed.

Lemma fold_len_le tbl : Forall (fun e : (list N -> option nat) * list N * list N =>
    let '(m, r, _) := e in
    (List.length r = 1 /\ forall t k, m t = Some k -> 2 <= k <= List.length t)
    \/ (exists x, m = literal [x] /\ r = [x])) tbl ->
  forall s, List.length (snd (apply_replacements tbl s))
            + list_sum (map snd (fst (apply_replacements tbl s))) <= List.length s.
Proof.
  induction tbl as [|[[m r] l] tbl IH]; intros H s; [cbn; lia|].
  inversion H as [|? ? Hp Ht]; subst.
  specialize (IH Ht (replace_all m r s)).
  cbn [apply_replacements].
  destruct (apply_replacements tbl (replace_all m r s)) as [fs out] eqn:Ea.
  rewrite ?Ea in IH. cbn [fst snd] in IH |- *.
  rewrite fixes_app_sum. unfold units_eqb.
  destruct (list_eq_dec N.eq_dec (replace_all m r s) s) as [Eq|Ne].
  - rewrite Eq in IH. cbn [map list_sum fold_right]. lia.
  - destruct Hp as [[Hr Hm] | [x [-> ->]]].
    + pose proof (count_len_le m r s Hr Hm). cbn [map list_sum fold_right snd]. lia.
    + exfalso. apply Ne, literal_id.
Qed.

Lemma encoding_len_ok : Forall (fun e : (list N -> option nat) * list N * list N =>
    let '(m, r, _) := e in
    List.length r = 1 /\ forall t k, m t = Some k -> k = 2 /\ 2 <= List.length t) mojibakeMap.
Proof.
  unfold mojibakeMap.
  repeat (apply Forall_cons;
    [split; [reflexivity | intros t k Hk; apply literal_len in Hk; cbn [List.length] in Hk; lia]|]).
  apply Forall_nil.
Qed.

Lemma umlaut_len_ok : Forall (fun e : (list N -> option nat) * list N * list N =>
    let '(m, r, _) := e in
    (List.length r = 1 /\ forall t k, m t = Some k -> 2 <= k <= List.length t)
    \/ (exists x, m = literal [x] /\ r = [x]))
    (map (fun '(pattern, replacement) => (pattern, replacement, replacement)) umlautFixes).
Proof.
  unfold umlautFixes. cbn [map].
  repeat (apply Forall_cons;
    [first
      [ right; eexists; split; reflexivity
      | left; split; [reflexivity|]; intros t k Hk; apply literal_len in Hk; cbn in Hk; lia
      | left; split; [reflexivity|]; intros t k Hk; unfold ae_before_lower in Hk;
        destruct t as [|? [|? [|? ?]]]; try discriminate;
        destruct (_ && _); [injection Hk as <-; cbn [List.length]; lia | discriminate]]|]).
  apply Forall_nil.
Qed.

End Replace.

(** Extra: running [cc_fix_encoding] on the content it wrote finds no
    mojibake left: no fix is reported and the content stays the same. *)
Theorem fix_encoding_idempotent (raw : list N) :
  cc_fix_encoding_apply (snd (cc_fix_encoding_apply raw))
  = ([], snd (cc_fix_encoding_apply raw)).
Proof.
  unfold cc_fix_encoding_apply.
  apply (Replace.table_idempotent (Replace.not_in Replace.encoding_chars)).
  exact Replace.encoding_table_ok.
Qed.

(** Extra: the counts [cc_fix_encoding] reports add up to the number of code
    units the content loses: each repaired two-unit sequence becomes one
    character. *)
Theorem fix_encoding_length (raw : list N) :
  List.length raw
  = List.length (snd (cc_fix_encoding_apply raw))
    + list_sum (map snd (fst (cc_fix_encoding_apply raw))).
Proof.
  unfold cc_fix_encoding_apply. apply Replace.fold_len_eq, Replace.encoding_len_ok.
Qed.

(** Extra: running [cc_fix_umlauts] on the content it wrote reports no fix
    and leaves the content as it is. *)
Theorem fix_umlauts_idempotent (raw : list N) :
  cc_fix_umlauts_apply (snd (cc_fix_umlauts_apply raw))
  = ([], snd (cc_fix_umlauts_apply raw)).
Proof.
  unfold cc_fix_umlauts_apply.
  apply (Replace.table_idempotent (Replace.not_in Replace.umlaut_chars)).
  exact Replace.umlaut_table_ok.
Qed.

(** Extra: the content [cc_fix_umlauts] writes contains no ["ae"] followed
    by a lower-case ASCII letter. *)
Theorem fix_umlauts_no_ae_before_lower (raw a b : list N) (c : N) :
  snd (cc_fix_umlauts_apply raw) = a ++ 97%N :: 101%N :: c :: b ->
  (c < 97 \/ 122 < c)%N.
Proof.
  intros E.
  pose proof (Replace.clear_fold (Replace.not_in Replace.umlaut_chars) _
                Replace.umlaut_table_ok raw) as H.
  rewrite Forall_forall in H.
  specialize (H (ae_before_lower, [228]%N, [228]%N)
                ltac:(unfold umlautFixes; cbn [map]; do 22 right; left; reflexivity)).
  destruct H as [[x [Ex _]] | Hn].
  - exfalso. pose proof (f_equal (fun f => f [97; 101; 97]%N) Ex) as Hx.
    cbn beta in Hx. change (ae_before_lower [97; 101; 97]%N) with (Some 2) in Hx.
    unfold literal in Hx. destruct (prefixb [x] [97; 101; 97]%N); discriminate.
  - destruct (N.ltb_spec c 97) as [Hlt|Hge]; [left; exact Hlt|].
    destruct (N.ltb_spec 122 c) as [Hlt|Hle]; [right; exact Hlt|].
    exfalso. apply Hn. exists a, (97 :: 101 :: c :: b)%N. split; [exact E|].
    cbn [ae_before_lower]. rewrite (proj2 (N.leb_le 97 c) Hge), (proj2 (N.leb_le c 122) Hle).
    cbn. discriminate.
Qed.

Lemma fix_umlauts_no_ae_before_lower_witness :
  snd (cc_fix_umlauts_apply [97; 101; 65]%N) = [] ++ [97; 101; 65]%N /\ (65 < 97 \/ 122 < 65)%N.
Proof.
  split; [vm_compute; reflexivity|].
  apply (fix_umlauts_no_ae_before_lower [97; 101; 65]%N [] [] 65%N).
  vm_compute. reflexivity.
Defined.

(** Extra: [cc_fix_umlauts] never lengthens the content, and its
    [totalFixes] is at most the number of code units the content loses. *)
Theorem fix_umlauts_total_bound (raw : list N) :
  List.length (snd (cc_fix_umlauts_apply raw)) + totalFixes (fst (cc_fix_umlauts_apply raw))
  <= List.length raw.
Proof.
  unfold cc_fix_umlauts_apply, totalFixes. apply Replace.fold_len_le, Replace.umlaut_len_ok.
Qed.

(** *** The line statistics of [analyzePythonCode] *)

Module Stats.

(** The newline characters of a string. *)
Definition nl_count (s : string) : nat :=
  List.length (filter (fun a => Ascii.eqb a (ascii_of_nat 10)) (list_ascii_of_string s)).

Lemma length_split_nl s : List.length (split_nl s) = S (nl_count s).
Proof.
  unfold nl_count. induction s as [|a s IH]; [reflexivity|].
  cbn [split_nl list_ascii_of_string filter].
  destruct (Ascii.eqb a (ascii_of_nat 10)).
  - cbn [List.length]. rewrite IH. reflexivity.
  - destruct (split_nl s) as [|l rest]; [discriminate IH|]. exact IH.
Qed.

Lemma prefix_head a k t : prefix (String a k) t = true -> exists t', t = String a t'.
Proof.
  destruct t as [|b t]; cbn [prefix]; [discriminate|].
  destruct (ascii_dec a b) as [->|]; [eauto | discriminate].
Qed.

Lemma rtrim_head a r : is_ws a = false -> rtrim (String a r) = String a (rtrim r).
Proof. intros H. cbn [rtrim]. rewrite H. reflexivity. Qed.

(** A line counted as a branch is a code line. *)
Lemma branch_code line : branch_line line = true ->
  String.eqb (trim line) "" = false /\ prefix "#" (trim line) = false.
Proof.
  unfold branch_line, trim. intros H. apply existsb_exists in H as [kw [Hin Hk]].
  apply andb_true_iff in Hk as [Hp _].
  assert (Hkw : exists a k, kw = String a k /\ is_ws a = false /\ a <> "#"%char).
  { cbn in Hin. repeat destruct Hin as [<-|Hin];
      try (do 2 eexists; split; [reflexivity | split; [reflexivity | discriminate]]).
    contradiction. }
  destruct Hkw as [a [k [-> [Hws Hh]]]]. destruct (prefix_head _ _ _ Hp) as [t' Et].
  rewrite Et, rtrim_head by exact Hws. split; [reflexivity|].
  cbn [prefix]. destruct (ascii_dec "#" a); [congruence | reflexivity].
Qed.

Lemma count_line_step st line :
  totalLines (count_line st line) = totalLines st /\
  codeLines (count_line st line) + commentLines (count_line st line)
    + blankLines (count_line st line)
  = S (codeLines st + commentLines st + blankLines st) /\
  complexity (count_line st line) + codeLines st
  <= codeLines (count_line st line) + complexity st.
Proof.
  unfold count_line. cbv zeta. destruct (branch_line line) eqn:Hb.
  - destruct (branch_code line Hb) as [H1 H2]. rewrite H1, H2. cbn. lia.
  - destruct (String.eqb (trim line) ""); [|destruct (prefix "#" (trim line))]; cbn; lia.
Qed.

Lemma fold_stats L st :
  totalLines (fold_left count_line L st) = totalLines st /\
  codeLines (fold_left count_line L st) + commentLines (fold_left count_line L st)
    + blankLines (fold_left count_line L st)
  = codeLines st + commentLines st + blankLines st + List.length L /\
  complexity (fold_left count_line L st) + codeLines st
  <= codeLines (fold_left count_line L st) + complexity st.
Proof.
  revert st. induction L as [|line L IH]; intros st; [cbn; lia|].
  cbn [fold_left List.length]. destruct (count_line_step st line) as (E1 & E2 & E3).
  destruct (IH (count_line st line)) as (F1 & F2 & F3). lia.
Qed.

End Stats.

(** Extra: in the statistics of [analyzePythonCode] every line is counted
    exactly once as a code, comment or blank line, and [totalLines] is one
    more than the number of newline characters. *)
Theorem analyze_line_partition (content : string) :
  codeLines (analyze_line_stats content) + commentLines (analyze_line_stats content)
    + blankLines (analyze_line_stats content)
  = totalLines (analyze_line_stats content) /\
  totalLines (analyze_line_stats content) = S (Stats.nl_count content).
Proof.
  unfold analyze_line_stats.
  destruct (Stats.fold_stats (split_nl content)
              (mkLineStats (List.length (split_nl content)) 0 0 0 0)) as (F1 & F2 & _).
  cbn [codeLines commentLines blankLines totalLines] in F1, F2.
  rewrite F1, F2, Stats.length_split_nl. split; reflexivity.
Qed.

(** Extra: the cyclomatic complexity [analyzePythonCode] reports is at most
    its number of code lines: a line that counts as a branch is a code
    line. *)
Theorem analyze_complexity_le_code (content : string) :
  complexity (analyze_line_stats content) <= codeLines (analyze_line_stats content).
Proof.
  unfold analyze_line_stats.
  destruct (Stats.fold_stats (split_nl content)
              (mkLineStats (List.length (split_nl content)) 0 0 0 0)) as (_ & _ & F3).
  cbn [codeLines complexity] in F3. lia.
Qed.
